(** * FrameStep: a shallow embedding of the frame-stepping core

    The development follows the JavaScript sources:
    - [src/main/ffmpeg-service.js]   (module [FFmpegService]),
    - [src/renderer/js/frame-cache.js] (module [FrameCache]),
    - [src/renderer/js/video-controller.js] (module [VideoController]).

    JavaScript numbers are IEEE doubles.  They are modelled by [JsNum.num]:
    an exact rational, or one of the three special values.  Rounding error of
    the floating-point operations is therefore abstracted away (every
    statement about a computed time or rate is up to that error), and the two
    zeros are identified.  Asynchronous code is modelled by splitting a
    function at its [await] and by explicit completion events. *)

From Stdlib Require Import ZArith QArith Qabs Qround Qminmax Lqa Lia List Sorted
  String Ascii Bool.
Import ListNotations.

Local Open Scope Z_scope.

(* ===================================================================== *)
(** * JavaScript numbers *)
(* ===================================================================== *)

Module JsNum.

Inductive num : Type :=
| Fin (q : Q)    (* a finite value *)
| PInf           (* Infinity *)
| NInf           (* -Infinity *)
| NaN.

Definition of_Z (z : Z) : num := Fin (inject_Z z).

Definition Qltb (a b : Q) : bool := negb (Qle_bool b a).

(** ToBoolean on a number: 0 and NaN are falsy. *)
Definition truthy (x : num) : bool :=
  match x with
  | Fin q => negb (Qeq_bool q 0)
  | PInf | NInf => true
  | NaN => false
  end.

(** [a || b] on numbers. *)
Definition or_else (a b : num) : num := if truthy a then a else b.

Definition is_finite (x : num) : bool :=
  match x with Fin _ => true | _ => false end.

Definition neg (x : num) : num :=
  match x with
  | Fin q => Fin (- q)
  | PInf => NInf
  | NInf => PInf
  | NaN => NaN
  end.

Definition add (x y : num) : num :=
  match x, y with
  | NaN, _ | _, NaN => NaN
  | Fin a, Fin b => Fin (a + b)
  | PInf, NInf | NInf, PInf => NaN
  | PInf, _ | _, PInf => PInf
  | NInf, _ | _, NInf => NInf
  end.

Definition sub (x y : num) : num := add x (neg y).

(** The sign of an infinite product or quotient. *)
Definition signed_inf (positive : bool) : num := if positive then PInf else NInf.

Definition mul_inf (pos : bool) (a : Q) : num :=
  if Qeq_bool a 0 then NaN else signed_inf (Bool.eqb pos (Qltb 0 a)).

Definition mul (x y : num) : num :=
  match x, y with
  | NaN, _ | _, NaN => NaN
  | Fin a, Fin b => Fin (a * b)
  | Fin a, PInf | PInf, Fin a => mul_inf true a
  | Fin a, NInf | NInf, Fin a => mul_inf false a
  | PInf, PInf | NInf, NInf => PInf
  | PInf, NInf | NInf, PInf => NInf
  end.

Definition div (x y : num) : num :=
  match x, y with
  | NaN, _ | _, NaN => NaN
  | Fin a, Fin b =>
      if Qeq_bool b 0
      then (if Qeq_bool a 0 then NaN else signed_inf (Qltb 0 a))
      else Fin (a / b)
  | Fin _, (PInf | NInf) => Fin 0
  | PInf, Fin b => signed_inf (Qle_bool 0 b)
  | NInf, Fin b => signed_inf (negb (Qle_bool 0 b))
  | (PInf | NInf), (PInf | NInf) => NaN
  end.

(** [<], [<=] and [===]: every comparison with NaN is false. *)
Definition ltb (x y : num) : bool :=
  match x, y with
  | NaN, _ | _, NaN => false
  | Fin a, Fin b => Qltb a b
  | NInf, NInf | PInf, _ => false
  | NInf, _ => true
  | Fin _, PInf => true
  | Fin _, NInf => false
  end.

Definition strict_eq (x y : num) : bool :=
  match x, y with
  | Fin a, Fin b => Qeq_bool a b
  | PInf, PInf | NInf, NInf => true
  | _, _ => false
  end.

Definition leb (x y : num) : bool := ltb x y || strict_eq x y.

(** Math.max and Math.min of two arguments. *)
Definition max (x y : num) : num :=
  match x, y with
  | NaN, _ | _, NaN => NaN
  | _, _ => if ltb x y then y else x
  end.

Definition min (x y : num) : num :=
  match x, y with
  | NaN, _ | _, NaN => NaN
  | _, _ => if ltb y x then y else x
  end.

Definition abs (x : num) : num :=
  match x with
  | Fin q => Fin (Qabs q)
  | PInf | NInf => PInf
  | NaN => NaN
  end.

(** Math.floor. *)
Definition floor (x : num) : num :=
  match x with
  | Fin q => of_Z (Qfloor q)
  | _ => x
  end.

(** Math.round rounds to the nearest integer, ties towards +Infinity. *)
Definition round (x : num) : num :=
  match x with
  | Fin q => of_Z (Qfloor (q + (1 # 2)))
  | _ => x
  end.

(** Two model values denote the same number. *)
Definition same (x y : num) : Prop :=
  match x, y with
  | Fin a, Fin b => (a == b)%Q
  | PInf, PInf | NInf, NInf | NaN, NaN => True
  | _, _ => False
  end.


End JsNum.

(* ===================================================================== *)
(** * String conversions: [String.prototype.split], [Number], [parseFloat] *)
(* ===================================================================== *)

Module JsString.
Import JsNum.

(** Strings are sequences of ASCII characters; the non-ASCII white space of
    ECMAScript does not occur. *)
Definition chars (s : string) : list ascii := list_ascii_of_string s.

Definition code (c : ascii) : Z := Z.of_N (N_of_ascii c).

Definition is_space (c : ascii) : bool :=
  let n := code c in
  ((9 <=? n) && (n <=? 13)) || (n =? 32).

(** The value of a digit in a radix up to 16, when it is one. *)
Definition digit_in (radix : Z) (c : ascii) : option Z :=
  let n := code c in
  let v := if (48 <=? n) && (n <=? 57) then Some (n - 48)
           else if (97 <=? n) && (n <=? 102) then Some (n - 87)
           else if (65 <=? n) && (n <=? 70) then Some (n - 55)
           else None in
  match v with
  | Some d => if d <? radix then Some d else None
  | None => None
  end.

Fixpoint drop_spaces (l : list ascii) : list ascii :=
  match l with
  | c :: r => if is_space c then drop_spaces r else l
  | [] => []
  end.

Definition trim (l : list ascii) : list ascii :=
  rev (drop_spaces (rev (drop_spaces l))).

(** [s.split(sep)] for a one-character separator. *)
Fixpoint split_on (sep : ascii) (cur : list ascii) (l : list ascii)
  : list (list ascii) :=
  match l with
  | [] => [rev cur]
  | c :: r =>
      if Ascii.eqb c sep then rev cur :: split_on sep [] r
      else split_on sep (c :: cur) r
  end.

Definition split (sep : ascii) (s : string) : list string :=
  map string_of_list_ascii (split_on sep [] (chars s)).

(** Reads a run of digits in [radix]: the value, the number of digits read
    and the remaining input. *)
Fixpoint scan_digits (radix : Z) (acc : Z) (count : nat) (l : list ascii)
  : Z * nat * list ascii :=
  match l with
  | c :: r =>
      match digit_in radix c with
      | Some d => scan_digits radix (acc * radix + d) (S count) r
      | None => (acc, count, l)
      end
  | [] => (acc, count, [])
  end.

Fixpoint starts_with (p l : list ascii) : option (list ascii) :=
  match p, l with
  | [], _ => Some l
  | a :: p', b :: l' => if Ascii.eqb a b then starts_with p' l' else None
  | _ :: _, [] => None
  end.

Definition scan_sign (l : list ascii) : bool * list ascii :=
  match l with
  | "+"%char :: r => (false, r)
  | "-"%char :: r => (true, r)
  | _ => (false, l)
  end.

(** The optional exponent part: consumed only when at least one digit
    follows the [e]. *)
Definition scan_exponent (l : list ascii) : Z * list ascii :=
  match l with
  | ("e" | "E")%char :: r =>
      let '(negative, r1) := scan_sign r in
      let '(e, n, r2) := scan_digits 10 0 0 r1 in
      match n with
      | O => (0, l)
      | S _ => (if negative then - e else e, r2)
      end
  | _ => (0, l)
  end.

(** An unsigned StrDecimalLiteral at the head of the input: its value and
    what follows it. *)
Definition scan_unsigned (l : list ascii) : option (num * list ascii) :=
  match starts_with (chars "Infinity") l with
  | Some r => Some (PInf, r)
  | None =>
      let '(i, ni, r1) := scan_digits 10 0 0 l in
      let mantissa :=
        match r1 with
        | "."%char :: r2 =>
            let '(f, nf, r3) := scan_digits 10 0 0 r2 in
            match ni, nf with
            | O, O => None
            | _, _ =>
                Some ((inject_Z i + inject_Z f / inject_Z (10 ^ Z.of_nat nf))%Q, r3)
            end
        | _ =>
            match ni with
            | O => None
            | S _ => Some (inject_Z i, r1)
            end
        end in
      match mantissa with
      | None => None
      | Some (m, r) =>
          let '(e, r') := scan_exponent r in
          Some (Fin (m * Qpower (inject_Z 10) e)%Q, r')
      end
  end.

Definition scan_signed (l : list ascii) : option (num * list ascii) :=
  let '(negative, r) := scan_sign l in
  match scan_unsigned r with
  | Some (v, r') => Some (if negative then neg v else v, r')
  | None => None
  end.

(** A non-decimal integer literal after its [0x], [0o] or [0b] prefix. *)
Definition radix_literal (radix : Z) (l : list ascii) : num :=
  match scan_digits radix 0 0 l with
  | (v, S _, []) => of_Z v
  | _ => NaN
  end.

(** [Number(s)] on a string (StringToNumber). *)
Definition Number (s : string) : num :=
  match trim (chars s) with
  | [] => of_Z 0
  | "0"%char :: ("x" | "X")%char :: r => radix_literal 16 r
  | "0"%char :: ("o" | "O")%char :: r => radix_literal 8 r
  | "0"%char :: ("b" | "B")%char :: r => radix_literal 2 r
  | l =>
      match scan_signed l with
      | Some (v, []) => v
      | _ => NaN
      end
  end.

(** The values read from the probe's output. *)
Inductive jsval : Type :=
| VUndef
| VStr (s : string)
| VNum (n : num).

(** [parseFloat(v)]: the longest decimal prefix of the string form of [v].
    A number prints to a string that parses back to itself. *)
Definition parseFloat (v : jsval) : num :=
  match v with
  | VUndef => NaN
  | VNum n => n
  | VStr s =>
      match scan_signed (drop_spaces (chars s)) with
      | Some (x, _) => x
      | None => NaN
      end
  end.

End JsString.

(* ===================================================================== *)
(** * src/main/ffmpeg-service.js *)
(* ===================================================================== *)

Module FFmpegService.
Import JsNum JsString.

(** ** getMetadata *)

(** A stream of the probe's answer.  The rates are "N/D" strings, absent
    when the container does not give them. *)
Record Stream : Type := {
  codec_type : string;
  r_frame_rate : option string;
  avg_frame_rate : option string;
  stream_duration : jsval
}.

Record ProbeData : Type := {
  streams : list Stream;
  format_duration : jsval
}.

(** What ffprobe hands to the callback: an error message or the data. *)
Inductive ProbeResult : Type :=
| ProbeErr (message : string)
| ProbeOk (metadata : ProbeData).

(** The descriptor resolved by [getMetadata] (the fields passed through
    unchanged: width, height, codec, bitRate and format, are left out). *)
Record Metadata : Type := {
  frameRate : num;
  duration : num;
  totalFrames : num;
  isVFR : bool
}.

(** A settled promise. *)
Inductive Promise (A E : Type) : Type :=
| Resolved (value : A)
| Rejected (error : E).
Arguments Resolved {A E} value.
Arguments Rejected {A E} error.

(** A string in a condition: the empty string is falsy. *)
Definition present (field : option string) : option string :=
  match field with
  | Some EmptyString => None
  | other => other
  end.

(** [const [num, den] = s.split('/').map(Number); den ? num / den : num] *)
Definition parseRate (s : string) : num :=
  let parts := map Number (split "/"%char s) in
  let numer := nth 0 parts NaN in
  match nth_error parts 1 with
  | Some den => if truthy den then div numer den else numer
  | None => numer
  end.

(** The frame rate before it is rounded. *)
Definition resolveFrameRate (vs : Stream) : num :=
  match present (r_frame_rate vs) with
  | Some r => parseRate r
  | None =>
      match present (avg_frame_rate vs) with
      | Some a => parseRate a
      | None => of_Z 30
      end
  end.

Definition resolveDuration (vs : Stream) (md : ProbeData) : num :=
  or_else (parseFloat (stream_duration vs))
          (or_else (parseFloat (format_duration md)) (of_Z 0)).

Definition option_string_eqb (a b : option string) : bool :=
  match a, b with
  | Some x, Some y => String.eqb x y
  | None, None => true
  | _, _ => false
  end.

(** [s => s.codec_type === 'video'] *)
Definition is_video (s : Stream) : bool := String.eqb (codec_type s) "video".

(** The arithmetic is exact here; the code divides, multiplies and parses
    in double precision, so its [totalFrames] is the floor of a product that
    is within [rounding_tolerance] of this one, and can be one less or one
    more when the exact product is a whole number or next to one. *)
Definition getMetadata (probe : ProbeResult) : Promise Metadata string :=
  match probe with
  | ProbeErr message => Rejected ("Failed to probe video: " ++ message)%string
  | ProbeOk md =>
      match find is_video (streams md) with
      | None => Rejected "No video stream found"%string
      | Some videoStream =>
          let rate := resolveFrameRate videoStream in
          let dur := resolveDuration videoStream md in
          Resolved {|
            frameRate := div (round (mul rate (of_Z 1000))) (of_Z 1000);
            duration := dur;
            totalFrames := floor (mul rate dur);
            isVFR := negb (option_string_eqb (r_frame_rate videoStream)
                                             (avg_frame_rate videoStream))
          |}
      end
  end.

(** ** extractFrame *)

Record ExtractedFrame : Type := {
  frameNumber : num;
  timestamp : num;
  data : list Byte.byte;   (* the bytes that travel base64-encoded *)
  format : string
}.

(** The seek optimisation: the coarse seek point and the frame selected
    after it. *)
Definition seekTime (frameNumber frameRate : num) : num :=
  max (of_Z 0) (sub (div frameNumber frameRate) (of_Z 2)).

Definition relativeFrame (frameNumber frameRate : num) : num :=
  sub frameNumber (round (mul (seekTime frameNumber frameRate) frameRate)).

(** What the spawned process reports. *)
Inductive ProcEvent : Type :=
| Data (chunk : list Byte.byte)     (* proc.stdout 'data' *)
| Close (code : option Z)           (* proc 'close'; no code when a signal ended it *)
| ProcError (message : string).     (* proc 'error' *)

(** The three [reject] sites. *)
Inductive ExtractError : Type :=
| ExitedWithCode (code : option Z)  (* "FFmpeg exited with code ..." *)
| FailedToSpawn (message : string)  (* "Failed to spawn ffmpeg: ..." *)
| ExtractionTimeout.                (* "Frame extraction timeout" *)

(** The variables of one call's closure. *)
Record Call : Type := {
  chunks : list (list Byte.byte);
  settled : bool;
  timerArmed : bool;
  killed : bool;
  result : option (Promise ExtractedFrame ExtractError)
}.

Definition timeoutMs : Z := 10000.

Definition spawned : Call :=
  {| chunks := []; settled := false; timerArmed := true; killed := false;
     result := None |}.

Definition on_data (chunk : list Byte.byte) (c : Call) : Call :=
  {| chunks := chunks c ++ [chunk]; settled := settled c;
     timerArmed := timerArmed c; killed := killed c; result := result c |}.

Definition settle (r : Promise ExtractedFrame ExtractError) (kill : bool) (c : Call)
  : Call :=
  {| chunks := chunks c; settled := true; timerArmed := false;
     killed := killed c || kill; result := Some r |}.

Definition code_is_zero (code : option Z) : bool :=
  match code with Some 0 => true | _ => false end.

Definition on_close (frameNumber frameRate : num) (code : option Z) (c : Call)
  : Call :=
  if settled c then c
  else if code_is_zero code && (0 <? Z.of_nat (List.length (chunks c)))
  then settle (Resolved {| frameNumber := frameNumber;
                           timestamp := div frameNumber frameRate;
                           data := List.concat (chunks c);
                           format := "jpeg"%string |}) false c
  else settle (Rejected (ExitedWithCode code)) false c.

Definition on_error (message : string) (c : Call) : Call :=
  if settled c then c
  else settle (Rejected (FailedToSpawn message)) false c.

Definition on_timeout (c : Call) : Call :=
  if settled c then c
  else settle (Rejected ExtractionTimeout) true c.

Definition deliver (frameNumber frameRate : num) (ev : ProcEvent) (c : Call) : Call :=
  match ev with
  | Data chunk => on_data chunk c
  | Close code => on_close frameNumber frameRate code c
  | ProcError message => on_error message c
  end.

(** The timer callback runs once [timeoutMs] milliseconds have passed since
    the spawn, unless [clearTimeout] disarmed it. *)
Definition fire_if_due (now : Z) (c : Call) : Call :=
  if timerArmed c && (timeoutMs <=? now) then on_timeout c else c.

(** The events of the process, each with the time in milliseconds since
    the spawn, in the order the event loop delivers them. *)
Fixpoint run (frameNumber frameRate : num) (events : list (Z * ProcEvent))
  (c : Call) : Call :=
  match events with
  | [] => c
  | (now, ev) :: rest =>
      run frameNumber frameRate rest
        (deliver frameNumber frameRate ev (fire_if_due now c))
  end.

(** When the process stays silent the timer is the last thing to happen. *)
Definition extractFrame (frameNumber frameRate : num)
  (events : list (Z * ProcEvent)) : Call :=
  let c := run frameNumber frameRate events spawned in
  if timerArmed c then on_timeout c else c.

(** ** extractFramesBatch *)

(** An element of the batch's answer: the frame, or the object the [catch]
    builds from the frame number and the error. *)
Inductive BatchEntry : Type :=
| BatchFrame (frame : ExtractedFrame)
| BatchError (frameNumber : num) (error : ExtractError).

Definition batch_entry (frameRate : num) (request : num * list (Z * ProcEvent))
  : option BatchEntry :=
  let '(frameNum, events) := request in
  match result (extractFrame frameNum frameRate events) with
  | Some (Resolved frame) => Some (BatchFrame frame)
  | Some (Rejected err) => Some (BatchError frameNum err)
  | None => None
  end.

Fixpoint all_settled {A : Type} (l : list (option A)) : option (list A) :=
  match l with
  | [] => Some []
  | None :: _ => None
  | Some x :: rest =>
      match all_settled rest with
      | Some xs => Some (x :: xs)
      | None => None
      end
  end.

(** [Promise.all] over one extraction per frame number, each with the events
    of its own process; [None] would be a batch that never answers. *)
Definition extractFramesBatch (frameRate : num)
  (requests : list (num * list (Z * ProcEvent))) : option (list BatchEntry) :=
  all_settled (map (batch_entry frameRate) requests).

Definition entry_frameNumber (e : BatchEntry) : num :=
  match e with
  | BatchFrame frame => frameNumber frame
  | BatchError n _ => n
  end.

End FFmpegService.


(* ===================================================================== *)
(** * src/renderer/js/frame-cache.js *)
(* ===================================================================== *)

Module FrameCache.

Section Frames.
(** What the extraction function yields. *)
Context {V : Type}.

(** A JavaScript [Map] keeps its keys in insertion order: an association
    list, oldest entry first, each key at most once. *)
Definition JsMap : Type := list (Z * V).

Definition map_has (k : Z) (m : JsMap) : bool :=
  existsb (fun e => fst e =? k) m.

Fixpoint map_get (k : Z) (m : JsMap) : option V :=
  match m with
  | [] => None
  | (k', v) :: r => if k' =? k then Some v else map_get k r
  end.

Definition map_delete (k : Z) (m : JsMap) : JsMap :=
  filter (fun e => negb (fst e =? k)) m.

(** [m.set(k, v)]: a present key keeps its place, a new key goes last. *)
Fixpoint map_set (k : Z) (v : V) (m : JsMap) : JsMap :=
  match m with
  | [] => [(k, v)]
  | (k', v') :: r =>
      if k' =? k then (k, v) :: r else (k', v') :: map_set k v r
  end.

Definition map_size (m : JsMap) : Z := Z.of_nat (List.length m).

(** [m.keys().next().value] *)
Definition map_first_key (m : JsMap) : option Z :=
  match m with
  | [] => None
  | (k, _) :: _ => Some k
  end.

(** The keys of [pendingRequests]; the promises stored under them are not
    represented. *)
Record t : Type := {
  maxSize : Z;
  cache : JsMap;
  pendingRequests : list Z
}.

Definition create (maxSize : Z) : t :=
  {| maxSize := maxSize; cache := []; pendingRequests := [] |}.

Definition with_cache (m : JsMap) (c : t) : t :=
  {| maxSize := maxSize c; cache := m; pendingRequests := pendingRequests c |}.

Definition with_pending (p : list Z) (c : t) : t :=
  {| maxSize := maxSize c; cache := cache c; pendingRequests := p |}.

Definition get (frameNumber : Z) (c : t) : option V * t :=
  if negb (map_has frameNumber (cache c)) then (None, c)
  else
    match map_get frameNumber (cache c) with
    | Some value =>
        (Some value,
         with_cache (map_set frameNumber value
                       (map_delete frameNumber (cache c))) c)
    | None => (None, c)
    end.

Definition set (frameNumber : Z) (frameData : V) (c : t) : t :=
  let m := cache c in
  let m1 :=
    if maxSize c <=? map_size m
    then match map_first_key m with
         | Some oldestKey => map_delete oldestKey m
         | None => m
         end
    else m in
  with_cache (map_set frameNumber frameData m1) c.

Definition has (frameNumber : Z) (c : t) : bool :=
  map_has frameNumber (cache c).

Definition clear (c : t) : t :=
  {| maxSize := maxSize c; cache := []; pendingRequests := [] |}.

Definition pending_has (k : Z) (c : t) : bool :=
  existsb (Z.eqb k) (pendingRequests c).

Definition pending_set (k : Z) (p : list Z) : list Z :=
  if existsb (Z.eqb k) p then p else p ++ [k].

Definition pending_delete (k : Z) (p : list Z) : list Z :=
  filter (fun k' => negb (k' =? k)) p.

(** The first loop of [prefetch], from [i] on for [n] more rounds. *)
Fixpoint framesToFetch (c : t) (currentFrame totalFrames i : Z) (n : nat)
  : list Z :=
  match n with
  | O => []
  | S n' =>
      let nextFrame := currentFrame + i in
      let prevFrame := currentFrame - i in
      (if (nextFrame <? totalFrames) && negb (has nextFrame c)
          && negb (pending_has nextFrame c)
       then [nextFrame] else [])
      ++ (if (0 <=? prevFrame) && negb (has prevFrame c)
             && negb (pending_has prevFrame c)
          then [prevFrame] else [])
      ++ framesToFetch c currentFrame totalFrames (i + 1) n'
  end.

(** The [forEach] of [prefetch]: each frame is handed to [extractFn] and
    its promise stored in [pendingRequests]. *)
Definition mark_pending (c : t) (frames : list Z) : t :=
  fold_left (fun c' frameNum =>
               with_pending (pending_set frameNum (pendingRequests c')) c')
            frames c.

(** [prefetch]: the indices [extractFn] is invoked on, in order, and the
    cache with each of them marked as in flight. *)
Definition prefetch (currentFrame totalFrames radius : Z) (c : t)
  : list Z * t :=
  let frames := framesToFetch c currentFrame totalFrames 1 (Z.to_nat radius) in
  (frames, mark_pending c frames).

(** The [then] callback of a scheduled extraction. *)
Definition prefetch_resolved (frameNum : Z) (data : V) (c : t) : t :=
  let c1 := set frameNum data c in
  with_pending (pending_delete frameNum (pendingRequests c1)) c1.

(** The [catch] callback of a scheduled extraction. *)
Definition prefetch_rejected (frameNum : Z) (c : t) : t :=
  with_pending (pending_delete frameNum (pendingRequests c)) c.

(** The test the first loop of [prefetch] applies to a candidate [k]: the
    forward candidates are those above [currentFrame]. *)
Definition fetched (c : t) (currentFrame totalFrames : Z) (k : Z) : bool :=
  (if currentFrame <? k then k <? totalFrames else 0 <=? k)
  && negb (has k c) && negb (pending_has k c).

(** The calls a client makes on the store, to speak of sequences of them. *)
Inductive CacheCall : Type :=
| CallSet (frameNumber : Z) (frameData : V)
| CallGet (frameNumber : Z).

Definition call (c : t) (op : CacheCall) : t :=
  match op with
  | CallSet k v => set k v c
  | CallGet k => snd (get k c)
  end.

(** [getStats()] *)
Record Stats : Type := {
  stats_size : Z;
  stats_maxSize : Z;
  stats_frames : list Z
}.

Definition getStats (c : t) : Stats :=
  {| stats_size := map_size (cache c);
     stats_maxSize := maxSize c;
     stats_frames := map fst (cache c) |}.

(** What happens to a cache that is filled by prefetching: the calls of
    its owner and the completions of the extractions it has scheduled. *)
Inductive CacheEvent : Type :=
| EvPrefetch (currentFrame totalFrames radius : Z)
| EvResolved (frameNum : Z) (data : V)
| EvRejected (frameNum : Z)
| EvGet (frameNumber : Z)
| EvClear.

Definition happen (c : t) (ev : CacheEvent) : t :=
  match ev with
  | EvPrefetch currentFrame totalFrames radius =>
      snd (prefetch currentFrame totalFrames radius c)
  | EvResolved frameNum data => prefetch_resolved frameNum data c
  | EvRejected frameNum => prefetch_rejected frameNum c
  | EvGet frameNumber => snd (get frameNumber c)
  | EvClear => clear c
  end.

End Frames.

Arguments JsMap V : clear implicits.
Arguments t V : clear implicits.
Arguments CacheCall V : clear implicits.
Arguments CacheEvent V : clear implicits.

End FrameCache.

(* ===================================================================== *)
(** * src/renderer/js/video-controller.js *)
(* ===================================================================== *)

Module VideoController.
Import JsNum FFmpegService.

(** The part of the native [<video>] element the controller reads and
    writes, and the visibility classes of the two surfaces. *)
Record VideoElement : Type := {
  paused : bool;
  currentTime : num;
  hidden : bool            (* classList contains 'hidden' *)
}.

(** Calls on the collaborators that leave no trace in the state below. *)
Inductive Effect : Type :=
| DrawVideoToCanvas
| UiUpdate (frame time : num)
| UiSteppingFeedback
| UpdateTimeline (progress : num)
| ConsoleError.

Record State : Type := {
  filePath : option string;
  metadata : option Metadata;
  currentFrame : num;
  isPlaying : bool;
  isFrameMode : bool;
  isStepping : bool;
  frameCache : FrameCache.t ExtractedFrame;
  videoElement : VideoElement;
  canvasVisible : bool;    (* canvas classList contains 'visible' *)
  effects : list Effect    (* most recent last *)
}.

(** The state the constructor leaves. *)
Definition initial : State :=
  {| filePath := None; metadata := None; currentFrame := of_Z 0;
     isPlaying := false; isFrameMode := false; isStepping := false;
     frameCache := FrameCache.create 30;
     videoElement := {| paused := true; currentTime := of_Z 0; hidden := false |};
     canvasVisible := false; effects := [] |}.

(** *** Field updates *)

Definition set_currentFrame (f : num) (st : State) : State :=
  {| filePath := filePath st; metadata := metadata st; currentFrame := f;
     isPlaying := isPlaying st; isFrameMode := isFrameMode st;
     isStepping := isStepping st; frameCache := frameCache st;
     videoElement := videoElement st; canvasVisible := canvasVisible st;
     effects := effects st |}.

Definition set_isPlaying (b : bool) (st : State) : State :=
  {| filePath := filePath st; metadata := metadata st;
     currentFrame := currentFrame st; isPlaying := b;
     isFrameMode := isFrameMode st; isStepping := isStepping st;
     frameCache := frameCache st; videoElement := videoElement st;
     canvasVisible := canvasVisible st; effects := effects st |}.

Definition set_isStepping (b : bool) (st : State) : State :=
  {| filePath := filePath st; metadata := metadata st;
     currentFrame := currentFrame st; isPlaying := isPlaying st;
     isFrameMode := isFrameMode st; isStepping := b;
     frameCache := frameCache st; videoElement := videoElement st;
     canvasVisible := canvasVisible st; effects := effects st |}.

Definition set_videoElement (v : VideoElement) (st : State) : State :=
  {| filePath := filePath st; metadata := metadata st;
     currentFrame := currentFrame st; isPlaying := isPlaying st;
     isFrameMode := isFrameMode st; isStepping := isStepping st;
     frameCache := frameCache st; videoElement := v;
     canvasVisible := canvasVisible st; effects := effects st |}.

(** Both surfaces switch together. *)
Definition set_surfaces (frameMode : bool) (st : State) : State :=
  {| filePath := filePath st; metadata := metadata st;
     currentFrame := currentFrame st; isPlaying := isPlaying st;
     isFrameMode := frameMode; isStepping := isStepping st;
     frameCache := frameCache st;
     videoElement := {| paused := paused (videoElement st);
                        currentTime := currentTime (videoElement st);
                        hidden := frameMode |};
     canvasVisible := frameMode; effects := effects st |}.

Definition emit (e : Effect) (st : State) : State :=
  {| filePath := filePath st; metadata := metadata st;
     currentFrame := currentFrame st; isPlaying := isPlaying st;
     isFrameMode := isFrameMode st; isStepping := isStepping st;
     frameCache := frameCache st; videoElement := videoElement st;
     canvasVisible := canvasVisible st; effects := effects st ++ [e] |}.

(** *** The native element *)

(** [videoElement.pause()] and [videoElement.play()]; the 'pause' and
    'play' events they queue arrive later, see [on_pause] and [on_play]. *)
Definition video_pause (st : State) : State :=
  let v := videoElement st in
  set_videoElement {| paused := true; currentTime := currentTime v;
                      hidden := hidden v |} st.

Definition video_play (st : State) : State :=
  let v := videoElement st in
  set_videoElement {| paused := false; currentTime := currentTime v;
                      hidden := hidden v |} st.

(** [videoElement.currentTime = time] raises a TypeError on a value that
    is not finite ([None]); otherwise the element moves to [time] (that the
    element keeps the position within its seekable range is not modelled). *)
Definition video_seek (time : num) (st : State) : option State :=
  if is_finite time
  then let v := videoElement st in
       Some (set_videoElement {| paused := paused v; currentTime := time;
                                 hidden := hidden v |} st)
  else None.

(** *** Frame mode *)

Definition enterFrameMode (st : State) : State :=
  if negb (isFrameMode st) then set_surfaces true st else st.

(** [exitFrameMode]; the flag tells whether the assignment of the synced
    position raised. *)
Definition exitFrameMode (st : State) : State * bool :=
  if isFrameMode st then
    let st1 := set_surfaces false st in
    match metadata st1 with
    | None => (st1, true)
    | Some md =>
        let targetTime := div (currentFrame st1) (frameRate md) in
        match video_seek targetTime st1 with
        | Some st2 => (st2, false)
        | None => (st1, true)
        end
    end
  else (st, false).

(** *** Events of the native element *)

Definition on_play (st : State) : State :=
  fst (exitFrameMode (set_isPlaying true st)).

Definition on_pause (st : State) : State := set_isPlaying false st.

Definition on_ended (st : State) : State := set_isPlaying false st.

(** The [requestVideoFrameCallback] tracker. *)
Definition onVideoFrame (mediaTime : num) (st : State) : State :=
  match metadata st with
  | Some md =>
      if negb (isFrameMode st) then
        let st1 := set_currentFrame (round (mul mediaTime (frameRate md))) st in
        emit (UpdateTimeline (div mediaTime (duration md)))
             (emit (UiUpdate (currentFrame st1) mediaTime) st1)
      else st
  | None => st
  end.

(** *** stepFrame *)

(** How the promise of [seekVideoToTime] behaves. *)
Inductive Seek : Type :=
| SeekImmediate              (* already there: resolved at once *)
| SeekPending (st : State)   (* resolves with the 'seeked' event *)
| SeekThrew.                 (* the assignment raised: rejected *)

Definition seekVideoToTime (time : num) (st : State) : Seek :=
  if ltb (abs (sub (currentTime (videoElement st)) time)) (Fin (1 # 1000))
  then SeekImmediate
  else match video_seek time st with
       | Some st' => SeekPending st'
       | None => SeekThrew
       end.

(** [stepFrame] either returns without waiting for the element, or is
    suspended at [await this.seekVideoToTime(targetTime)]. *)
Inductive Step : Type :=
| Returned (st : State)
| Seeking (targetFrame targetTime : num) (st : State).

(** The statements after the [await], to the end of the function. *)
Definition stepFrame_resume (targetFrame targetTime : num) (st : State) : State :=
  let st1 := emit DrawVideoToCanvas st in
  let st2 := set_currentFrame targetFrame st1 in
  let st3 := emit UiSteppingFeedback (emit (UiUpdate targetFrame targetTime) st2) in
  match metadata st3 with
  | None => set_isStepping false (emit ConsoleError st3)
  | Some md =>
      let st4 := emit (UpdateTimeline (div targetTime (duration md))) st3 in
      set_isStepping false (enterFrameMode st4)
  end.

(** [Math.max(0, Math.min(currentFrame + delta, totalFrames - 1))] *)
Definition clampedTarget (current delta total : num) : num :=
  max (of_Z 0) (min (add current delta) (sub total (of_Z 1))).

Definition stepFrame_begin (delta : num) (st : State) : Step :=
  match metadata st with
  | None => Returned st
  | Some md =>
      if isStepping st then Returned st
      else
        let st1 := if isPlaying st then video_pause st else st in
        let st2 := set_isStepping true st1 in
        let targetFrame :=
          clampedTarget (currentFrame st2) delta (totalFrames md) in
        if strict_eq targetFrame (currentFrame st2)
        then Returned (set_isStepping false st2)
        else
          let frameDuration := div (of_Z 1) (frameRate md) in
          let targetTime := mul targetFrame frameDuration in
          match seekVideoToTime targetTime st2 with
          | SeekImmediate => Returned (stepFrame_resume targetFrame targetTime st2)
          | SeekPending st3 => Seeking targetFrame targetTime st3
          | SeekThrew => Returned (set_isStepping false (emit ConsoleError st2))
          end
  end.

(** A call that returns: when it has to wait for the element, the 'seeked'
    event arrives; [during] is what the event handlers that run while the
    seek is pending do to the state. *)
Definition stepFrame (during : State -> State) (delta : num) (st : State) : State :=
  match stepFrame_begin delta st with
  | Returned st' => st'
  | Seeking targetFrame targetTime st' =>
      stepFrame_resume targetFrame targetTime (during st')
  end.

(** A call as the page runs it.  The promise of [seekVideoToTime] has no
    timeout and no way to reject once the seek is pending: it resolves only
    when the element fires 'seeked'.  [seeked] is [Some during] when the
    event arrives, after the handlers [during], and [None] when it never
    does; then the call never returns and the state stays as the [await]
    left it.  The flag tells whether the call has returned. *)
Definition stepFrame_run (seeked : option (State -> State)) (delta : num)
  (st : State) : State * bool :=
  match stepFrame_begin delta st with
  | Returned st' => (st', true)
  | Seeking targetFrame targetTime st' =>
      match seeked with
      | Some during => (stepFrame_resume targetFrame targetTime (during st'), true)
      | None => (st', false)
      end
  end.

(** *** Playback commands *)

Definition togglePlayPause (st : State) : State :=
  match metadata st with
  | None => st
  | Some _ =>
      if isPlaying st then video_pause st
      else
        let '(st1, threw) := exitFrameMode st in
        if threw then st1 else video_play st1
  end.

Definition play (st : State) : State :=
  match metadata st with
  | None => st
  | Some _ =>
      let '(st1, threw) := exitFrameMode st in
      if threw then st1 else video_play st1
  end.

Definition pause (st : State) : State :=
  match metadata st with
  | None => st
  | Some _ => video_pause st
  end.

(** The two products are exact here; the code's are double-precision
    products, so its [targetFrame] is the rounding of a number within
    [rounding_tolerance] of this one, and can be the neighbouring frame when
    the exact product lies half way between two frames. *)
Definition seekToProgress (during : State -> State) (progress : num) (st : State)
  : State :=
  match metadata st with
  | None => st
  | Some md =>
      let targetTime := mul progress (duration md) in
      let targetFrame := round (mul targetTime (frameRate md)) in
      if isFrameMode st || paused (videoElement st) then
        stepFrame during (of_Z 1)
          (set_currentFrame (max (of_Z 0) (sub targetFrame (of_Z 1))) st)
      else
        match video_seek targetTime st with
        | Some st' => st'
        | None => st
        end
  end.

(** *** getState *)

Record PlaybackState : Type := {
  gs_isPlaying : bool;
  gs_isPaused : bool;
  gs_isFrameMode : bool;
  gs_currentFrame : num;
  gs_totalFrames : num;
  gs_currentTime : num;
  gs_duration : num
}.

(** [this.metadata?.field || fallback] *)
Definition field_or (field : Metadata -> num) (fallback : Z) (st : State) : num :=
  match metadata st with
  | Some md => or_else (field md) (of_Z fallback)
  | None => of_Z fallback
  end.

Definition getState (st : State) : PlaybackState :=
  {| gs_isPlaying := isPlaying st;
     gs_isPaused := negb (isPlaying st)
                    && match metadata st with Some _ => true | None => false end;
     gs_isFrameMode := isFrameMode st;
     gs_currentFrame := currentFrame st;
     gs_totalFrames := field_or totalFrames 0 st;
     gs_currentTime := div (currentFrame st) (field_or frameRate 1 st);
     gs_duration := field_or duration 0 st |}.

(** *** Tracking by time, and loading *)

(** The [timeupdate] fallback, used when the element has no
    [requestVideoFrameCallback]. *)
Definition onTimeUpdate (hasFrameCallback : bool) (st : State) : State :=
  match metadata st with
  | Some md =>
      if negb (isFrameMode st) && negb hasFrameCallback then
        let time := currentTime (videoElement st) in
        let st1 := set_currentFrame (round (mul time (frameRate md))) st in
        emit (UpdateTimeline (div time (duration md)))
             (emit (UiUpdate (currentFrame st1) time) st1)
      else st
  | None => st
  end.

Definition goToBeginning (during : State -> State) (st : State) : State :=
  match metadata st with
  | None => st
  | Some _ => seekToProgress during (of_Z 0) st
  end.

(** [reset]: the element drops its media (its load algorithm pauses it and
    puts it at position 0), both surfaces go back to the video, the cache
    is cleared and every field returns to its initial value. *)
Definition reset (st : State) : State :=
  {| filePath := None; metadata := None; currentFrame := of_Z 0;
     isPlaying := false; isFrameMode := false; isStepping := false;
     frameCache := FrameCache.clear (frameCache st);
     videoElement := {| paused := true; currentTime := of_Z 0; hidden := false |};
     canvasVisible := false;
     effects := effects st ++ [UpdateTimeline (of_Z 0)] |}.

(** [loadVideo(filePath)], given what the two awaited operations answer:
    the metadata probe, and whether the element reports 'loadeddata' rather
    than 'error'.  The result is the final state and the value returned. *)
Definition loadVideo (path : string) (probe : Promise Metadata string)
  (elementLoads : bool) (st : State) : State * bool :=
  let st0 := reset st in
  let st1 :=
    {| filePath := Some path; metadata := metadata st0;
       currentFrame := currentFrame st0; isPlaying := isPlaying st0;
       isFrameMode := isFrameMode st0; isStepping := isStepping st0;
       frameCache := frameCache st0; videoElement := videoElement st0;
       canvasVisible := canvasVisible st0; effects := effects st0 |} in
  match probe with
  | Rejected _ => (emit ConsoleError st1, false)
  | Resolved md =>
      let st2 :=
        {| filePath := filePath st1; metadata := Some md;
           currentFrame := currentFrame st1; isPlaying := isPlaying st1;
           isFrameMode := isFrameMode st1; isStepping := isStepping st1;
           frameCache := frameCache st1; videoElement := videoElement st1;
           canvasVisible := canvasVisible st1; effects := effects st1 |} in
      if elementLoads then
        let st3 := set_currentFrame (of_Z 0) st2 in
        let st4 := emit (UpdateTimeline (of_Z 0))
                        (emit (UiUpdate (of_Z 0) (of_Z 0)) st3) in
        (video_play st4, true)
      else (emit ConsoleError st2, false)
  end.

End VideoController.


(* ===================================================================== *)
(** * Sound, speed and window size (the later controller) *)
(* ===================================================================== *)

Module PlayerControls.
Import JsNum.

(** The controller's fields [volume], [previousVolume] and [playbackRate],
    and the element's [volume], [muted] and [playbackRate]. *)
Record Sound : Type := {
  volume : num;
  previousVolume : num;
  playbackRate : num;
  el_volume : num;
  el_muted : bool;
  el_playbackRate : num
}.

(** The constructor's values, on a fresh element. *)
Definition initial : Sound :=
  {| volume := of_Z 1; previousVolume := of_Z 1; playbackRate := of_Z 1;
     el_volume := of_Z 1; el_muted := false; el_playbackRate := of_Z 1 |}.

Definition playbackRateStep : num := Fin (1 # 4).
Definition minPlaybackRate : num := Fin (1 # 4).
Definition maxPlaybackRate : num := of_Z 2.

(** [setVolume(value)].  The element refuses a volume that is not a finite
    number between 0 and 1: the assignment raises and the rest of the
    function is skipped (the flag). *)
Definition setVolume (value : num) (s : Sound) : Sound * bool :=
  let v := max (of_Z 0) (min (of_Z 1) value) in
  if is_finite v && leb (of_Z 0) v && leb v (of_Z 1) then
    if ltb (of_Z 0) v
    then ({| volume := v; previousVolume := v; playbackRate := playbackRate s;
             el_volume := v; el_muted := false;
             el_playbackRate := el_playbackRate s |}, false)
    else ({| volume := v; previousVolume := previousVolume s;
             playbackRate := playbackRate s;
             el_volume := v; el_muted := true;
             el_playbackRate := el_playbackRate s |}, false)
  else ({| volume := v; previousVolume := previousVolume s;
           playbackRate := playbackRate s;
           el_volume := el_volume s; el_muted := el_muted s;
           el_playbackRate := el_playbackRate s |}, true).

(** [adjustVolume(delta)]; [loaded] tells whether [metadata] is set. *)
Definition adjustVolume (loaded : bool) (delta : num) (s : Sound) : Sound :=
  if negb loaded then s
  else fst (setVolume (add (el_volume s) delta) s).

Definition toggleMute (s : Sound) : Sound :=
  if el_muted s || strict_eq (el_volume s) (of_Z 0)
  then fst (setVolume (or_else (previousVolume s) (of_Z 1)) s)
  else fst (setVolume (of_Z 0)
              {| volume := volume s; previousVolume := el_volume s;
                 playbackRate := playbackRate s;
                 el_volume := el_volume s; el_muted := el_muted s;
                 el_playbackRate := el_playbackRate s |}).

(** [Number(x.toFixed(digits))]: [x] rounded to [digits] decimals, a tie
    going away from zero; a number of 1e21 or more is printed in full. *)
Definition toFixedNumber (digits : Z) (x : num) : num :=
  match x with
  | Fin q =>
      let a := Qabs q in
      if Qle_bool (inject_Z (10 ^ 21)) a then Fin q
      else
        let scale := inject_Z (10 ^ digits) in
        let rounded := (inject_Z (Qfloor (a * scale + (1 # 2))) / scale)%Q in
        Fin (if Qltb q 0 then (- rounded)%Q else rounded)
  | _ => x
  end.

Definition normalizePlaybackRate (value : num) : num :=
  let clamped := max minPlaybackRate (min maxPlaybackRate value) in
  let stepped := mul (round (div clamped playbackRateStep)) playbackRateStep in
  toFixedNumber 2 stepped.

(** [setPlaybackRate(value)]; the element refuses a rate that is not
    finite. *)
Definition setPlaybackRate (value : num) (s : Sound) : Sound * bool :=
  let next := normalizePlaybackRate value in
  if is_finite next
  then ({| volume := volume s; previousVolume := previousVolume s;
           playbackRate := next;
           el_volume := el_volume s; el_muted := el_muted s;
           el_playbackRate := next |}, false)
  else ({| volume := volume s; previousVolume := previousVolume s;
           playbackRate := next;
           el_volume := el_volume s; el_muted := el_muted s;
           el_playbackRate := el_playbackRate s |}, true).

Definition adjustPlaybackRate (loaded : bool) (direction : num) (s : Sound) : Sound :=
  if negb loaded then s
  else fst (setPlaybackRate
              (add (playbackRate s) (mul direction playbackRateStep)) s).

(** The 'ratechange' listener. *)
Definition on_ratechange (s : Sound) : Sound :=
  {| volume := volume s; previousVolume := previousVolume s;
     playbackRate := el_playbackRate s;
     el_volume := el_volume s; el_muted := el_muted s;
     el_playbackRate := el_playbackRate s |}.

(** What [reset()] does to the speed. *)
Definition reset (s : Sound) : Sound :=
  {| volume := volume s; previousVolume := previousVolume s;
     playbackRate := of_Z 1;
     el_volume := el_volume s; el_muted := el_muted s;
     el_playbackRate := of_Z 1 |}.

(** The calls the controls make, with finite arguments. *)
Inductive SoundCall : Type :=
| DoSetVolume (value : Q)
| DoAdjustVolume (loaded : bool) (delta : Q)
| DoToggleMute
| DoSetPlaybackRate (value : Q)
| DoAdjustPlaybackRate (loaded : bool) (direction : Q)
| RateChanged
| DoReset.

Definition perform (s : Sound) (call : SoundCall) : Sound :=
  match call with
  | DoSetVolume value => fst (setVolume (Fin value) s)
  | DoAdjustVolume loaded delta => adjustVolume loaded (Fin delta) s
  | DoToggleMute => toggleMute s
  | DoSetPlaybackRate value => fst (setPlaybackRate (Fin value) s)
  | DoAdjustPlaybackRate loaded direction =>
      adjustPlaybackRate loaded (Fin direction) s
  | RateChanged => on_ratechange s
  | DoReset => reset s
  end.

(** ** resizeWindowToVideo *)

(** [Math.min] and [Math.max] of three arguments. *)
Definition min3 (a b c : num) : num := min (min a b) c.
Definition max3 (a b c : num) : num := max (max a b) c.

Definition titlebarHeight : num := of_Z 32.
Definition minWindowWidth : num := of_Z 480.
Definition minWindowHeight : num := of_Z 360.

(** The content size after it is scaled down to 85% of the screen. *)
Definition scaledDown (displayWidth displayHeight screenWidth screenHeight : num)
  : num * num :=
  let maxWindowWidth := round (mul screenWidth (Fin (85 # 100))) in
  let maxWindowHeight := round (mul screenHeight (Fin (85 # 100))) in
  let maxContentWidth := maxWindowWidth in
  let maxContentHeight := max (of_Z 1) (sub maxWindowHeight titlebarHeight) in
  let downScale := min3 (of_Z 1) (div maxContentWidth displayWidth)
                        (div maxContentHeight displayHeight) in
  (round (mul displayWidth downScale), round (mul displayHeight downScale)).

(** The content size after it is scaled up to the minimal window. *)
Definition scaledUp (content : num * num) : num * num :=
  let '(contentWidth, contentHeight) := content in
  let minContentWidth := minWindowWidth in
  let minContentHeight := max (of_Z 1) (sub minWindowHeight titlebarHeight) in
  let upScale := max3 (of_Z 1) (div minContentWidth contentWidth)
                      (div minContentHeight contentHeight) in
  (round (mul contentWidth upScale), round (mul contentHeight upScale)).

(** The size handed to [setWindowSize]; [videoWidth] and [videoHeight] are
    the element's, [width] and [height] the descriptor's. *)
Definition resizeWindowToVideo (loaded : bool)
  (videoWidth videoHeight width height screenWidth screenHeight : num)
  : option (num * num) :=
  if negb loaded then None
  else
    let displayWidth := or_else videoWidth width in
    let displayHeight := or_else videoHeight height in
    let '(contentWidth, contentHeight) :=
      scaledUp (scaledDown displayWidth displayHeight screenWidth screenHeight) in
    Some (contentWidth, round (add contentHeight titlebarHeight)).

End PlayerControls.

(* ===================================================================== *)
(** * Sample inputs *)
(* ===================================================================== *)

Module Samples.
Import JsNum JsString FFmpegService VideoController.

(** A probe answer with a single video stream. *)
Definition video_stream (r a : option string) (d : jsval) : Stream :=
  {| codec_type := "video"; r_frame_rate := r; avg_frame_rate := a;
     stream_duration := d |}.

Definition only (vs : Stream) : ProbeData :=
  {| streams := [vs]; format_duration := VUndef |}.

Definition descriptor_of (probe : ProbeResult) : Metadata :=
  match getMetadata probe with
  | Resolved d => d
  | Rejected _ =>
      {| frameRate := NaN; duration := NaN; totalFrames := NaN; isVFR := false |}
  end.

(** NTSC video: 1000 frames at 30000/1001 frames per second. *)
Definition ntsc_stream : Stream :=
  video_stream (Some "30000/1001"%string) (Some "30000/1001"%string)
               (VStr "33.366667").

Definition ntsc_descriptor : Metadata :=
  Eval vm_compute in descriptor_of (ProbeOk (only ntsc_stream)).

(** A stream whose rates ffprobe reports as "0/0". *)
Definition zero_rate_stream : Stream :=
  video_stream (Some "0/0"%string) (Some "0/0"%string) (VStr "10.5").

Definition zero_rate_descriptor : Metadata :=
  Eval vm_compute in descriptor_of (ProbeOk (only zero_rate_stream)).

(** A stream that gives no rate at all. *)
Definition no_rate_stream : Stream := video_stream None None (VStr "10").

Definition no_rate_descriptor : Metadata :=
  Eval vm_compute in descriptor_of (ProbeOk (only no_rate_stream)).

(** Ten seconds at 10 frames per second: 100 frames. *)
Definition clip100 : Metadata :=
  {| frameRate := of_Z 10; duration := of_Z 10; totalFrames := of_Z 100;
     isVFR := false |}.

(** [clip100] loaded and paused at frame [frame]. *)
Definition paused_at (frame : Z) : State :=
  {| filePath := Some "/videos/clip.mp4"%string; metadata := Some clip100;
     currentFrame := of_Z frame;
     isPlaying := false; isFrameMode := false; isStepping := false;
     frameCache := FrameCache.create 30;
     videoElement := {| paused := true;
                        currentTime := Fin (inject_Z frame / 10);
                        hidden := false |};
     canvasVisible := false; effects := [] |}.

(** [clip100] loaded and playing, the tracker showing frame [frame]. *)
Definition playing_at (frame : Z) : State :=
  {| filePath := Some "/videos/clip.mp4"%string; metadata := Some clip100;
     currentFrame := of_Z frame;
     isPlaying := true; isFrameMode := false; isStepping := false;
     frameCache := FrameCache.create 30;
     videoElement := {| paused := false;
                        currentTime := Fin (inject_Z frame / 10);
                        hidden := false |};
     canvasVisible := false; effects := [] |}.

(** No event handler runs while a seek is pending. *)
Definition undisturbed (st : State) : State := st.

(** The frame the extractor yields for index [i] of [clip100]. *)
Definition frame_at (i : Z) (bytes : list Byte.byte) : ExtractedFrame :=
  {| frameNumber := of_Z i; timestamp := div (of_Z i) (of_Z 10);
     data := bytes; format := "jpeg" |}.

(** A cache of capacity 2 holding frames 1 and 2. *)
Definition full_cache : FrameCache.t ExtractedFrame :=
  FrameCache.set 2 (frame_at 2 [Byte.x02])
    (FrameCache.set 1 (frame_at 1 [Byte.x01]) (FrameCache.create 2)).

(** The controller's cache right after construction. *)
Definition empty_cache : FrameCache.t ExtractedFrame := FrameCache.create 30.

(** A decode that writes a frame in two chunks and exits after 250 ms. *)
Definition quick_decode : list (Z * ProcEvent) :=
  [ (120, Data [Byte.xff; Byte.xd8]); (180, Data [Byte.xff; Byte.xd9]);
    (250, Close (Some 0)) ].

(** A decode that is still writing when the timer fires. *)
Definition slow_decode : list (Z * ProcEvent) :=
  [ (9000, Data [Byte.xff; Byte.xd8]); (12000, Close (Some 0)) ].

(** A stream of one frame every 2500 seconds: the rate rounds to 0. *)
Definition crawl_stream : Stream :=
  video_stream (Some "1/2500"%string) (Some "1/2500"%string) (VStr "10000").

Definition crawl_descriptor : Metadata :=
  Eval vm_compute in descriptor_of (ProbeOk (only crawl_stream)).

(** [crawl_descriptor] loaded and paused at frame [frame]. *)
Definition crawl_paused_at (frame : Z) : State :=
  {| filePath := Some "/videos/crawl.mkv"%string; metadata := Some crawl_descriptor;
     currentFrame := of_Z frame;
     isPlaying := false; isFrameMode := false; isStepping := false;
     frameCache := FrameCache.create 30;
     videoElement := {| paused := true; currentTime := of_Z 0; hidden := false |};
     canvasVisible := false; effects := [] |}.

End Samples.

(* ===================================================================== *)
(** * The specification's words, for comparison with the code *)
(* ===================================================================== *)

Module Reference.
Import JsNum FFmpegService.

(** The event that ends the decode process: its first 'close' or 'error',
    with the time at which it happens. *)
Fixpoint first_exit (events : list (Z * ProcEvent)) : option (Z * ProcEvent) :=
  match events with
  | [] => None
  | (_, Data _) :: rest => first_exit rest
  | (t, ev) :: _ => Some (t, ev)
  end.

(** The chunks the process has emitted before it ends. *)
Fixpoint output_before_exit (events : list (Z * ProcEvent)) : list (list Byte.byte) :=
  match events with
  | (_, Data chunk) :: rest => chunk :: output_before_exit rest
  | _ => []
  end.

(** The process completes within the bounded wait of 10 seconds. *)
Definition completes_in_time (events : list (Z * ProcEvent)) : option ProcEvent :=
  match first_exit events with
  | Some (t, ev) => if t <? 10000 then Some ev else None
  | None => None
  end.

Definition has_bytes (output : list Byte.byte) : bool :=
  match output with
  | [] => false
  | _ :: _ => true
  end.

(** "On process exit code 0 with non-empty output, return an ExtractedFrame;
    otherwise fail", and ExtractionTimeout after the bounded wait. *)
Definition extract (frameIndex frameRate : num) (events : list (Z * ProcEvent))
  : Promise ExtractedFrame ExtractError :=
  let output := List.concat (output_before_exit events) in
  match completes_in_time events with
  | Some (Close code) =>
      if code_is_zero code && has_bytes output
      then Resolved {| frameNumber := frameIndex;
                       timestamp := div frameIndex frameRate;
                       data := output;
                       format := "jpeg" |}
      else Rejected (ExitedWithCode code)
  | Some (ProcError message) => Rejected (FailedToSpawn message)
  | Some (Data _) | None => Rejected ExtractionTimeout
  end.

(** The error taxonomy of the specification. *)
Inductive ErrorKind : Type := ExtractionFailedKind | ExtractionTimeoutKind.

Definition kind (e : ExtractError) : ErrorKind :=
  match e with
  | ExitedWithCode _ | FailedToSpawn _ => ExtractionFailedKind
  | ExtractionTimeout => ExtractionTimeoutKind
  end.

(** The events come in the order of their times. *)
Definition chronological (events : list (Z * ProcEvent)) : Prop :=
  StronglySorted (fun a b => fst a <= fst b) events.

(** A 'data' event of a stream carries at least one byte. *)
Definition chunks_nonempty (events : list (Z * ProcEvent)) : Prop :=
  forall t chunk, In (t, Data chunk) events -> chunk <> [].

(** The indices around [currentIndex], forward before backward, nearest
    first: [i] from [first] on, [n] of them. *)
Fixpoint neighbours (currentIndex first : Z) (n : nat) : list Z :=
  match n with
  | O => []
  | S n' =>
      (currentIndex + first) :: (currentIndex - first)
      :: neighbours currentIndex (first + 1) n'
  end.

(** Strings of decimal digits and the number they write. *)
Definition is_decimal (c : ascii) : bool :=
  (48 <=? JsString.code c) && (JsString.code c <=? 57).

Definition all_decimal (l : list ascii) : bool := forallb is_decimal l.

Definition digits_value (l : list ascii) : Z :=
  fold_left (fun acc c => acc * 10 + (JsString.code c - 48)) l 0.

End Reference.

(* ===================================================================== *)
(** * Properties of the number model *)
(* ===================================================================== *)

Import JsNum.

Lemma Qltb_lt (a b : Q) : Qltb a b = true <-> (a < b)%Q.
Proof.
  unfold Qltb. rewrite negb_true_iff.
  split; intro H.
  - apply Qnot_le_lt. intro Hle. apply Qle_bool_iff in Hle. congruence.
  - destruct (Qle_bool b a) eqn:E; trivial.
    apply Qle_bool_iff in E. exfalso. apply (Qlt_not_le _ _ H E).
Qed.

Lemma Qltb_ge (a b : Q) : Qltb a b = false <-> (b <= a)%Q.
Proof.
  unfold Qltb. rewrite negb_false_iff. apply Qle_bool_iff.
Qed.

Lemma Qeq_bool_false (a b : Q) : Qeq_bool a b = false <-> ~ (a == b)%Q.
Proof.
  split; intro H.
  - intro E. apply Qeq_bool_iff in E. congruence.
  - destruct (Qeq_bool a b) eqn:E; trivial.
    apply Qeq_bool_iff in E. contradiction.
Qed.

Lemma same_refl (x : num) : same x x.
Proof. destruct x; simpl; trivial. reflexivity. Qed.

Lemma same_sym (x y : num) : same x y -> same y x.
Proof. destruct x, y; simpl; trivial. intro H. symmetry. exact H. Qed.

Lemma same_trans (x y z : num) : same x y -> same y z -> same x z.
Proof.
  destruct x, y, z; simpl; trivial; try contradiction.
  intros H1 H2. rewrite H1. exact H2.
Qed.

Lemma strict_eq_same (x y : num) : strict_eq x y = true -> same x y.
Proof.
  destruct x, y; simpl; trivial; try discriminate.
  apply Qeq_bool_iff.
Qed.

Lemma same_fin_inv (x : num) (q : Q) :
  same x (Fin q) -> exists p, x = Fin p /\ (p == q)%Q.
Proof.
  destruct x; simpl; try contradiction.
  intro H. eauto.
Qed.

(** On finite numbers the clamp is the usual one. *)
Lemma clampedTarget_fin (c d n : Q) :
  exists t, VideoController.clampedTarget (Fin c) (Fin d) (Fin n) = Fin t
            /\ (t == Qmax 0 (Qmin (c + d) (n - 1)))%Q.
Proof.
  unfold VideoController.clampedTarget, of_Z, sub, add, neg, min, max, ltb.
  destruct (Qltb (n + - inject_Z 1) (c + d)) eqn:E1.
  - apply Qltb_lt in E1.
    destruct (Qltb (inject_Z 0) (n + - inject_Z 1)) eqn:E2.
    + apply Qltb_lt in E2. eexists; split; [reflexivity|].
      rewrite Q.min_r, Q.max_r; unfold inject_Z in *; lra.
    + apply Qltb_ge in E2. eexists; split; [reflexivity|].
      rewrite Q.min_r, Q.max_l; unfold inject_Z in *; lra.
  - apply Qltb_ge in E1.
    destruct (Qltb (inject_Z 0) (c + d)) eqn:E2.
    + apply Qltb_lt in E2. eexists; split; [reflexivity|].
      rewrite Q.min_l, Q.max_r; unfold inject_Z in *; lra.
    + apply Qltb_ge in E2. eexists; split; [reflexivity|].
      rewrite Q.min_l, Q.max_l; unfold inject_Z in *; lra.
Qed.

(* ===================================================================== *)
(** * The navigation coordinator *)
(* ===================================================================== *)

Import FFmpegService VideoController.

Lemma set_isStepping_undo (st : State) :
  isStepping st = false -> set_isStepping false (set_isStepping true st) = st.
Proof. destruct st; simpl; intros ->; reflexivity. Qed.

Lemma isStepping_after_pause (st : State) :
  isStepping (if isPlaying st then video_pause st else st) = isStepping st.
Proof. destruct (isPlaying st); reflexivity. Qed.

Lemma currentFrame_set_isStepping (b : bool) (st : State) :
  currentFrame (set_isStepping b st) = currentFrame st.
Proof. reflexivity. Qed.

Lemma metadata_set_isStepping (b : bool) (st : State) :
  metadata (set_isStepping b st) = metadata st.
Proof. reflexivity. Qed.

Lemma currentFrame_after_pause (st : State) :
  currentFrame (if isPlaying st then video_pause st else st) = currentFrame st.
Proof. destruct (isPlaying st); reflexivity. Qed.

Lemma metadata_after_pause (st : State) :
  metadata (if isPlaying st then video_pause st else st) = metadata st.
Proof. destruct (isPlaying st); reflexivity. Qed.

Ltac through_pause :=
  rewrite ?metadata_set_isStepping, ?currentFrame_set_isStepping,
          ?metadata_after_pause, ?currentFrame_after_pause.

Lemma video_seek_fin (q : Q) (st : State) :
  exists st', video_seek (Fin q) st = Some st'
              /\ metadata st' = metadata st /\ currentFrame st' = currentFrame st.
Proof. unfold video_seek; simpl. eexists; split; [reflexivity|]. split; reflexivity. Qed.

Lemma metadata_enterFrameMode (st : State) :
  metadata (enterFrameMode st) = metadata st.
Proof. unfold enterFrameMode. destruct (negb (isFrameMode st)); reflexivity. Qed.

Lemma currentFrame_enterFrameMode (st : State) :
  currentFrame (enterFrameMode st) = currentFrame st.
Proof. unfold enterFrameMode. destruct (negb (isFrameMode st)); reflexivity. Qed.

Lemma stepFrame_resume_spec (tf tt : num) (st : State) :
  metadata (stepFrame_resume tf tt st) = metadata st
  /\ currentFrame (stepFrame_resume tf tt st) = tf
  /\ isStepping (stepFrame_resume tf tt st) = false.
Proof.
  unfold stepFrame_resume; simpl.
  destruct (metadata st) eqn:E; simpl.
  - rewrite metadata_enterFrameMode, currentFrame_enterFrameMode; simpl. auto.
  - auto.
Qed.

(** A step that is not ignored, on a video whose frame rate is finite and
    not zero, ends on the clamped target whatever happens while the element
    seeks, as long as the same video stays loaded. *)
Lemma stepFrame_lands (st : State) (md : Metadata) (during : State -> State)
      (delta : num) (r t : Q) :
  metadata st = Some md ->
  isStepping st = false ->
  frameRate md = Fin r ->
  ~ (r == 0)%Q ->
  clampedTarget (currentFrame st) delta (totalFrames md) = Fin t ->
  (forall s, metadata (during s) = metadata s) ->
  metadata (stepFrame during delta st) = Some md
  /\ same (currentFrame (stepFrame during delta st)) (Fin t).
Proof.
  intros Hmd Hstep Hrate Hr Htarget Hduring.
  unfold stepFrame, stepFrame_begin.
  rewrite Hmd, Hstep. through_pause. rewrite Htarget.
  destruct (strict_eq (Fin t) (currentFrame st)) eqn:Eeq.
  - through_pause. split; [exact Hmd|].
    apply same_sym, strict_eq_same, Eeq.
  - rewrite Hrate. unfold div, of_Z.
    apply Qeq_bool_false in Hr. rewrite Hr. unfold mul.
    unfold seekVideoToTime.
    match goal with |- context [ltb ?a ?b] => destruct (ltb a b) end.
    + destruct (stepFrame_resume_spec (Fin t) (Fin (t * (inject_Z 1 / r)))
                  (set_isStepping true (if isPlaying st then video_pause st else st)))
        as (Hm & Hc & _).
      rewrite Hm, Hc. through_pause. split; [exact Hmd | apply same_refl].
    + match goal with |- context [video_seek (Fin ?q) ?s] =>
        destruct (video_seek_fin q s) as (st' & Hseek & Hm' & _); rewrite Hseek
      end.
      match goal with |- context [stepFrame_resume ?a ?b ?s] =>
        destruct (stepFrame_resume_spec a b s) as (Hm & Hc & _)
      end.
      rewrite Hm, Hc, Hduring, Hm'. through_pause.
      split; [exact Hmd | apply same_refl].
Qed.

(** C1, as the code has it.  On a loaded video whose frame rate is finite
    and not zero, when a call of [stepFrame] that is not ignored (no step
    is in flight) has
    completed and its clamped target frame is [i], [getState] reports
    [currentFrame = i] and [currentTime = i / frameRate].  This holds for
    every integer [i] the clamp can yield, so for every valid frame index,
    and whatever the event handlers do while the native seek is pending,
    provided the same video stays loaded.  Times are exact rationals: the
    equality is up to the rounding of the floating-point operations. *)
Theorem stepFrame_then_getState
        (st : State) (md : Metadata) (during : State -> State)
        (delta : num) (r : Q) (i : Z) :
  metadata st = Some md ->
  isStepping st = false ->
  frameRate md = Fin r ->
  ~ (r == 0)%Q ->
  same (clampedTarget (currentFrame st) delta (totalFrames md)) (of_Z i) ->
  (forall s, metadata (during s) = metadata s) ->
  same (gs_currentFrame (getState (stepFrame during delta st))) (of_Z i)
  /\ same (gs_currentTime (getState (stepFrame during delta st)))
          (Fin (inject_Z i / r)).
Proof.
  intros Hmd Hstep Hrate Hr Htarget Hduring.
  destruct (same_fin_inv _ _ Htarget) as (t & Ht & Hti).
  destruct (stepFrame_lands st md during delta r t Hmd Hstep Hrate Hr Ht Hduring)
    as (Hm & Hc).
  assert (Hsame : same (currentFrame (stepFrame during delta st)) (of_Z i)).
  { eapply same_trans; [exact Hc|]. exact Hti. }
  split; [exact Hsame|].
  unfold getState, field_or; simpl.
  rewrite Hm, Hrate. unfold or_else, truthy.
  apply Qeq_bool_false in Hr. rewrite Hr. simpl.
  destruct (same_fin_inv _ _ Hsame) as (c & Hcf & Hci).
  rewrite Hcf. unfold div. rewrite Hr. simpl. rewrite Hci. reflexivity.
Qed.

(** Frame 42 of the sample clip is reached from frame 41. *)
Lemma stepFrame_then_getState_witness :
  same (gs_currentFrame
          (getState (stepFrame Samples.undisturbed (of_Z 1) (Samples.paused_at 41))))
       (of_Z 42)
  /\ same (gs_currentTime
             (getState (stepFrame Samples.undisturbed (of_Z 1) (Samples.paused_at 41))))
          (Fin (inject_Z 42 / 10)).
Proof.
  apply (stepFrame_then_getState (Samples.paused_at 41) Samples.clip100
           Samples.undisturbed (of_Z 1) 10 42).
  - reflexivity.
  - reflexivity.
  - reflexivity.
  - intro H. vm_compute in H. discriminate.
  - vm_compute. reflexivity.
  - reflexivity.
Defined.

(** C1 as stated fails on a video whose frame rate rounds to 0.  For a
    stream of one frame every 2500 seconds and 10000 seconds the prober
    answers a descriptor with frame rate 0 and 4 frames.  A step forward
    from frame 0 has the clamped target 1, which is a valid index; the
    target time is not finite, the element refuses it, the call logs the
    error and returns, and [getState] still reports frame 0. *)
Lemma stepFrame_at_zero_rate_stays :
  getMetadata (ProbeOk (Samples.only Samples.crawl_stream))
  = Resolved Samples.crawl_descriptor
  /\ strict_eq (frameRate Samples.crawl_descriptor) (of_Z 0) = true
  /\ strict_eq (totalFrames Samples.crawl_descriptor) (of_Z 4) = true
  /\ strict_eq (clampedTarget (currentFrame (Samples.crawl_paused_at 0)) (of_Z 1)
                              (totalFrames Samples.crawl_descriptor))
               (of_Z 1) = true
  /\ stepFrame_begin (of_Z 1) (Samples.crawl_paused_at 0)
     = Returned (emit ConsoleError (Samples.crawl_paused_at 0))
  /\ strict_eq
       (gs_currentFrame
          (getState (stepFrame Samples.undisturbed (of_Z 1)
                               (Samples.crawl_paused_at 0))))
       (of_Z 0) = true
  /\ strict_eq
       (gs_currentFrame
          (getState (stepFrame Samples.undisturbed (of_Z 1)
                               (Samples.crawl_paused_at 0))))
       (of_Z 1) = false.
Proof. repeat split. Qed.

(** At either end of the clip a step outwards returns before it seeks;
    all it has done is to pause the element when the video was playing. *)
Lemma stepFrame_begin_at_boundary (st : State) (md : Metadata) (delta : num)
      (c d n : Q) :
  metadata st = Some md ->
  isStepping st = false ->
  currentFrame st = Fin c ->
  delta = Fin d ->
  totalFrames md = Fin n ->
  (Qmax 0 (Qmin (c + d) (n - 1)) == c)%Q ->
  stepFrame_begin delta st = Returned (if isPlaying st then video_pause st else st).
Proof.
  intros Hmd Hstep Hc Hd Hn Hclamp.
  unfold stepFrame_begin. rewrite Hmd, Hstep. through_pause.
  rewrite Hc, Hd, Hn.
  destruct (clampedTarget_fin c d n) as (t & Ht & Hval).
  rewrite Ht. simpl strict_eq.
  assert (E : Qeq_bool t c = true).
  { apply Qeq_bool_iff. rewrite Hval. exact Hclamp. }
  rewrite E. f_equal.
  apply set_isStepping_undo. rewrite isStepping_after_pause. exact Hstep.
Qed.

(** C9, as the code has it.  On a loaded video with no step in flight,
    [stepFrame(-1)] at frame 0 and [stepFrame(+1)] at frame [totalFrames - 1]
    return before any seek, draw or overlay update is made.  The state they
    leave is the state they found, except that a playing video has been
    paused first: when the player is not playing nothing changes at all. *)
Theorem stepFrame_at_boundary
        (st : State) (md : Metadata) (during : State -> State) (c n : Q) :
  metadata st = Some md ->
  isStepping st = false ->
  currentFrame st = Fin c ->
  totalFrames md = Fin n ->
  ((c == 0)%Q ->
     stepFrame during (of_Z (-1)) st = (if isPlaying st then video_pause st else st))
  /\ ((c == n - 1)%Q -> (0 <= c)%Q ->
     stepFrame during (of_Z 1) st = (if isPlaying st then video_pause st else st))
  /\ ((c == 0)%Q -> isPlaying st = false -> stepFrame during (of_Z (-1)) st = st)
  /\ ((c == n - 1)%Q -> (0 <= c)%Q -> isPlaying st = false ->
     stepFrame during (of_Z 1) st = st).
Proof.
  intros Hmd Hstep Hc Hn.
  assert (Hlow : (c == 0)%Q ->
    stepFrame during (of_Z (-1)) st = (if isPlaying st then video_pause st else st)).
  { intro H0. unfold stepFrame.
    rewrite (stepFrame_begin_at_boundary st md (of_Z (-1)) c (inject_Z (-1)) n);
      trivial.
    destruct (Q.min_spec (c + inject_Z (-1)) (n - 1)) as [[H1 H2] | [H1 H2]];
      rewrite H2;
      (rewrite Q.max_l; [ | unfold inject_Z in *; lra ]); lra. }
  assert (Hhigh : (c == n - 1)%Q -> (0 <= c)%Q ->
    stepFrame during (of_Z 1) st = (if isPlaying st then video_pause st else st)).
  { intros H1 H0. unfold stepFrame.
    rewrite (stepFrame_begin_at_boundary st md (of_Z 1) c (inject_Z 1) n);
      trivial.
    rewrite Q.min_r by (unfold inject_Z; lra).
    rewrite Q.max_r by lra. lra. }
  repeat split.
  - exact Hlow.
  - exact Hhigh.
  - intros H0 Hp. rewrite (Hlow H0), Hp. reflexivity.
  - intros H1 H0 Hp. rewrite (Hhigh H1 H0), Hp. reflexivity.
Qed.

(** The paused sample clip at its first frame. *)
Lemma stepFrame_at_boundary_witness :
  stepFrame Samples.undisturbed (of_Z (-1)) (Samples.paused_at 0)
  = Samples.paused_at 0.
Proof.
  refine (proj1 (proj2 (proj2
            (stepFrame_at_boundary (Samples.paused_at 0) Samples.clip100
               Samples.undisturbed 0 100 _ _ _ _))) _ _);
    reflexivity.
Defined.

(** C9 as stated fails while the video plays: the step at frame 0 pauses
    the element. *)
Lemma stepFrame_at_boundary_pauses :
  currentFrame (Samples.playing_at 0) = of_Z 0
  /\ paused (videoElement (Samples.playing_at 0)) = false
  /\ paused (videoElement
               (stepFrame Samples.undisturbed (of_Z (-1)) (Samples.playing_at 0)))
     = true.
Proof. repeat split. Qed.

(** A step forward while the clip plays: the element is paused at once, its
    'pause' event arrives while the seek is pending, and the step ends on
    frame 42 in frame mode. *)
Example stepFrame_while_playing :
  let st := stepFrame on_pause (of_Z 1) (Samples.playing_at 41) in
  currentFrame st = of_Z 42
  /\ isPlaying st = false
  /\ isFrameMode st = true
  /\ isStepping st = false
  /\ paused (videoElement st) = true.
Proof. repeat split. Qed.

(** C10.  With no media loaded ([metadata] is null) each navigation command
    returns at its first statement, without suspending, and leaves the whole
    state as it was. *)
Theorem commands_without_media
        (st : State) (during : State -> State) (delta progress : num) :
  metadata st = None ->
  stepFrame_begin delta st = Returned st
  /\ stepFrame during delta st = st
  /\ togglePlayPause st = st
  /\ play st = st
  /\ pause st = st
  /\ seekToProgress during progress st = st.
Proof.
  intro Hmd.
  unfold stepFrame, stepFrame_begin, togglePlayPause, play, pause, seekToProgress.
  rewrite Hmd. repeat split.
Qed.

(** The state the constructor leaves has no media. *)
Lemma commands_without_media_witness :
  stepFrame_begin (of_Z 1) initial = Returned initial
  /\ stepFrame Samples.undisturbed (of_Z 1) initial = initial
  /\ togglePlayPause initial = initial
  /\ play initial = initial
  /\ pause initial = initial
  /\ seekToProgress Samples.undisturbed (Fin (1 # 2)) initial = initial.
Proof.
  apply (commands_without_media initial Samples.undisturbed (of_Z 1) (Fin (1 # 2))).
  reflexivity.
Defined.








(** At the start of the timeline the detour through the frame before the
    target has nowhere to go: [seekToProgress(0)] on the paused clip ends on
    frame 1. *)
Example seekToProgress_start :
  currentFrame (seekToProgress Samples.undisturbed (Fin 0) (Samples.paused_at 40))
  = of_Z 1.
Proof. reflexivity. Qed.


(* ===================================================================== *)
(** * The metadata prober *)
(* ===================================================================== *)

Lemma Qfloor_unique (x : Q) (k : Z) :
  (inject_Z k <= x)%Q -> (x < inject_Z k + 1)%Q -> Qfloor x = k.
Proof.
  intros Hlo Hhi.
  pose proof (Qfloor_le x) as H1. pose proof (Qlt_floor x) as H2.
  rewrite inject_Z_plus in H2.
  destruct (Z.lt_trichotomy (Qfloor x) k) as [Hlt | [Heq | Hgt]]; trivial.
  - assert (H : Qfloor x + 1 <= k) by lia.
    rewrite Zle_Qle, inject_Z_plus in H. unfold inject_Z in *; lra.
  - assert (H : k + 1 <= Qfloor x) by lia.
    rewrite Zle_Qle, inject_Z_plus in H. unfold inject_Z in *; lra.
Qed.

Lemma Qfloor_lower (x : Q) (k : Z) : (inject_Z k <= x)%Q -> k <= Qfloor x.
Proof.
  intro H. rewrite <- (Qfloor_Z k). apply Qfloor_resp_le, H.
Qed.

Lemma getMetadata_resolved (md : ProbeData) (vs : Stream) (d : Metadata) :
  find is_video (streams md) = Some vs ->
  getMetadata (ProbeOk md) = Resolved d ->
  d = {| frameRate := div (round (mul (resolveFrameRate vs) (of_Z 1000))) (of_Z 1000);
         duration := resolveDuration vs md;
         totalFrames := floor (mul (resolveFrameRate vs) (resolveDuration vs md));
         isVFR := negb (option_string_eqb (r_frame_rate vs) (avg_frame_rate vs)) |}.
Proof.
  intros Hfind H. unfold getMetadata in H. rewrite Hfind in H.
  injection H as <-. reflexivity.
Qed.





(** C8, as the code has it.  For the descriptor of a successful probe:
    the frame rate is 30 when both rate fields are absent or empty; it is
    positive when the rate resolved from the fields is a finite number of at
    least 0.0005; and the frame count is at least 0 when that rate and the
    duration are finite and not negative. *)
Theorem descriptor_invariants
        (md : ProbeData) (vs : Stream) (d : Metadata) :
  find is_video (streams md) = Some vs ->
  getMetadata (ProbeOk md) = Resolved d ->
  (present (r_frame_rate vs) = None -> present (avg_frame_rate vs) = None ->
     same (frameRate d) (of_Z 30))
  /\ (forall q : Q,
        resolveFrameRate vs = Fin q -> (1 # 2000 <= q)%Q ->
        ltb (of_Z 0) (frameRate d) = true)
  /\ (forall q t : Q,
        resolveFrameRate vs = Fin q -> duration d = Fin t ->
        (0 <= q)%Q -> (0 <= t)%Q ->
        leb (of_Z 0) (totalFrames d) = true).
Proof.
  intros Hfind H. rewrite (getMetadata_resolved md vs d Hfind H).
  cbn [totalFrames frameRate duration].
  repeat split.
  - intros Hr Ha. unfold resolveFrameRate. rewrite Hr, Ha.
    vm_compute. reflexivity.
  - intros q Hq Hge. rewrite Hq. unfold mul, round, div, of_Z.
    change (Qeq_bool (inject_Z 1000) 0) with false. cbv iota.
    unfold ltb. apply Qltb_lt.
    assert (Hk : 1 <= Qfloor (q * inject_Z 1000 + (1 # 2))).
    { apply Qfloor_lower. unfold inject_Z. lra. }
    rewrite Zle_Qle in Hk.
    set (kq := inject_Z (Qfloor (q * inject_Z 1000 + (1 # 2)))) in *.
    apply Qlt_shift_div_l; unfold inject_Z in *; lra.
  - intros q t Hq Ht Hq0 Ht0. rewrite Hq, Ht.
    unfold mul, floor, leb, ltb, strict_eq, of_Z.
    assert (Hk : 0 <= Qfloor (q * t)).
    { apply Qfloor_lower. unfold inject_Z. nra. }
    rewrite Zle_Qle in Hk.
    set (kq := inject_Z (Qfloor (q * t))) in *.
    destruct (Qltb (inject_Z 0) kq) eqn:E; trivial.
    apply Qltb_ge in E. simpl. apply Qeq_bool_iff.
    unfold inject_Z in *. lra.
Qed.

(** A stream without rate fields gets 30 frames per second. *)
Lemma descriptor_invariants_witness :
  same (frameRate Samples.no_rate_descriptor) (of_Z 30).
Proof.
  refine (proj1 (descriptor_invariants (Samples.only Samples.no_rate_stream)
                   Samples.no_rate_stream Samples.no_rate_descriptor _ _) _ _);
    reflexivity.
Defined.

(** C8 as stated fails on a stream whose rates read "0/0": the probe
    succeeds with a frame rate of 0, neither positive nor 30. *)
Lemma zero_rate_is_not_positive :
  getMetadata (ProbeOk (Samples.only Samples.zero_rate_stream))
  = Resolved Samples.zero_rate_descriptor
  /\ strict_eq (frameRate Samples.zero_rate_descriptor) (of_Z 0) = true
  /\ ltb (of_Z 0) (frameRate Samples.zero_rate_descriptor) = false.
Proof. repeat split. Qed.

(** A rate that does not parse is not replaced by 30 either. *)
Example unparsable_rate_is_NaN :
  frameRate (Samples.descriptor_of
               (ProbeOk (Samples.only
                  (Samples.video_stream (Some "N/A"%string) None
                                        (JsString.VStr "10")))))
  = NaN.
Proof. reflexivity. Qed.

(* ===================================================================== *)
(** * The frame extractor *)
(* ===================================================================== *)

Section Extraction.

Variables index fps : num.

Let unsettled (cs : list (list Byte.byte)) : Call :=
  {| chunks := cs; settled := false; timerArmed := true; killed := false;
     result := None |}.

(** Once the promise is settled nothing the process does changes it. *)
Lemma run_settled (events : list (Z * ProcEvent)) (c : Call) :
  settled c = true ->
  timerArmed c = false ->
  result (run index fps events c) = result c
  /\ killed (run index fps events c) = killed c
  /\ timerArmed (run index fps events c) = false.
Proof.
  revert c. induction events as [| [t ev] rest IH]; intros c Hs Ht; simpl.
  - auto.
  - unfold fire_if_due. rewrite Ht. simpl.
    destruct ev as [chunk | code | message]; simpl.
    + destruct (IH (on_data chunk c)) as (H1 & H2 & H3); auto.
    + unfold on_close. rewrite Hs. auto.
    + unfold on_error. rewrite Hs. auto.
Qed.

Lemma first_exit_In (events : list (Z * ProcEvent)) (t : Z) (ev : ProcEvent) :
  Reference.first_exit events = Some (t, ev) -> In (t, ev) events.
Proof.
  induction events as [| [t' ev'] rest IH]; simpl; [discriminate|].
  destruct ev'; intro H.
  - right. apply IH, H.
  - left. congruence.
  - left. congruence.
Qed.

(** The process cannot complete in time when its first event is late. *)
Lemma late_start_never_completes (t : Z) (ev : ProcEvent)
      (rest : list (Z * ProcEvent)) :
  Reference.chronological ((t, ev) :: rest) ->
  10000 <= t ->
  Reference.completes_in_time ((t, ev) :: rest) = None.
Proof.
  intros Hsorted Hlate. unfold Reference.completes_in_time.
  destruct (Reference.first_exit ((t, ev) :: rest)) as [[t' ev'] |] eqn:E; trivial.
  apply first_exit_In in E.
  apply StronglySorted_inv in Hsorted. destruct Hsorted as [_ Hall].
  assert (Hle : t <= t').
  { destruct E as [E | E].
    - injection E as <- _. lia.
    - rewrite Forall_forall in Hall. apply (Hall _ E). }
  destruct (t' <? 10000) eqn:Et; trivial.
  apply Z.ltb_lt in Et. lia.
Qed.

Lemma has_bytes_concat (cs : list (list Byte.byte)) :
  Forall (fun chunk => chunk <> []) cs ->
  Reference.has_bytes (List.concat cs) = (0 <? Z.of_nat (List.length cs)).
Proof.
  intro H. destruct cs as [| chunk cs']; [reflexivity|].
  apply Forall_inv in H. simpl.
  destruct chunk; [contradiction|]. reflexivity.
Qed.

(** The outcome the specification gives, for a call that has collected
    [cs] so far and still sees [events]. *)
Let expected (cs : list (list Byte.byte)) (events : list (Z * ProcEvent))
  : Promise ExtractedFrame ExtractError :=
  match Reference.completes_in_time events with
  | Some (Close code) =>
      let output := List.concat (cs ++ Reference.output_before_exit events) in
      if code_is_zero code && Reference.has_bytes output
      then Resolved {| frameNumber := index;
                       timestamp := div index fps;
                       data := output;
                       format := "jpeg" |}
      else Rejected (ExitedWithCode code)
  | Some (ProcError message) => Rejected (FailedToSpawn message)
  | Some (Data _) | None => Rejected ExtractionTimeout
  end.

Let finish (c : Call) : Call := if timerArmed c then on_timeout c else c.

Lemma run_unsettled (events : list (Z * ProcEvent)) :
  forall cs : list (list Byte.byte),
  Reference.chronological events ->
  Reference.chunks_nonempty events ->
  Forall (fun chunk => chunk <> []) cs ->
  result (finish (run index fps events (unsettled cs)))
  = Some (expected cs events)
  /\ killed (finish (run index fps events (unsettled cs)))
     = match Reference.completes_in_time events with
       | Some _ => false
       | None => true
       end.
Proof.
  induction events as [| [t ev] rest IH]; intros cs Hsorted Hdata Hcs.
  - split; reflexivity.
  - cbn [run]. unfold fire_if_due. cbn [timerArmed unsettled].
    destruct (timeoutMs <=? t) eqn:Elate; cbn [andb].
    + (* the timer fires first *)
      apply Z.leb_le in Elate. unfold timeoutMs in Elate.
      unfold expected.
      rewrite (late_start_never_completes t ev rest Hsorted Elate).
      assert (Hc : forall c, settled c = true -> timerArmed c = false ->
                result (finish (run index fps rest c)) = result c
                /\ killed (finish (run index fps rest c)) = killed c).
      { intros c Hs Ht. destruct (run_settled rest c Hs Ht) as (H1 & H2 & H3).
        unfold finish. rewrite H3. auto. }
      destruct ev as [chunk | code | message];
        (match goal with |- context [run _ _ rest ?c] =>
           destruct (Hc c) as [H1 H2]; [reflexivity | reflexivity |];
           rewrite H1, H2
         end); split; reflexivity.
    + apply Z.leb_gt in Elate. unfold timeoutMs in Elate.
      assert (Hrest : Reference.chronological rest).
      { apply StronglySorted_inv in Hsorted. apply Hsorted. }
      assert (Hin : (t <? 10000) = true) by (apply Z.ltb_lt; exact Elate).
      destruct ev as [chunk | code | message].
      * (* more output *)
        cbn [deliver]. unfold on_data. cbn [chunks settled timerArmed killed result unsettled].
        assert (Hchunk : chunk <> []).
        { apply (Hdata t). left. reflexivity. }
        destruct (IH (cs ++ [chunk]) Hrest) as [H1 H2].
        { intros t' ch Hi. apply (Hdata t'). right. exact Hi. }
        { apply Forall_app. split; [exact Hcs|]. constructor; [exact Hchunk | constructor]. }
        fold (unsettled (cs ++ [chunk])).
        rewrite H1, H2. split; [|reflexivity].
        unfold expected, Reference.completes_in_time. cbn [Reference.first_exit Reference.output_before_exit].
        rewrite <- app_assoc. reflexivity.
      * (* the process closes *)
        cbn [deliver]. unfold on_close. cbn [settled unsettled chunks].
        unfold expected, Reference.completes_in_time.
        cbn [Reference.first_exit Reference.output_before_exit].
        rewrite Hin, app_nil_r, (has_bytes_concat cs Hcs).
        destruct (code_is_zero code && (0 <? Z.of_nat (List.length cs)));
          (match goal with |- context [run _ _ rest ?c] =>
             destruct (run_settled rest c) as (H1 & H2 & H3);
               [reflexivity | reflexivity |];
             unfold finish; rewrite H3, H1, H2
           end); split; reflexivity.
      * (* the process could not be spawned *)
        cbn [deliver]. unfold on_error. cbn [settled unsettled].
        unfold expected, Reference.completes_in_time. cbn [Reference.first_exit].
        rewrite Hin.
        match goal with |- context [run _ _ rest ?c] =>
          destruct (run_settled rest c) as (H1 & H2 & H3);
            [reflexivity | reflexivity |];
          unfold finish; rewrite H3, H1, H2
        end. split; reflexivity.
Qed.

End Extraction.

Lemma first_exit_not_data (events : list (Z * ProcEvent)) (t : Z)
      (chunk : list Byte.byte) :
  Reference.first_exit events <> Some (t, Data chunk).
Proof.
  induction events as [| [t' ev'] rest IH]; simpl; [discriminate|].
  destruct ev'; trivial; discriminate.
Qed.

Lemma completes_not_data (events : list (Z * ProcEvent)) (chunk : list Byte.byte) :
  Reference.completes_in_time events <> Some (Data chunk).
Proof.
  unfold Reference.completes_in_time.
  destruct (Reference.first_exit events) as [[t ev] |] eqn:E; [|discriminate].
  destruct (t <? 10000); [|discriminate].
  intro H. injection H as ->. exact (first_exit_not_data _ _ _ E).
Qed.

(** C6.  Process events are taken in chronological order, each 'data' event
    carrying at least one byte.  [extractFrame] then settles as the
    specification says: it resolves with the frame exactly when the process
    exits with code 0 within the wait of 10 seconds having produced output;
    when the process ends within the wait in any other way (another exit
    code, no output, a spawn error) the call fails with an error of the
    ExtractionFailed kind and the process is not killed; and when the
    process has not ended within 10 seconds it is killed and the call fails
    with ExtractionTimeout. *)
Theorem extractFrame_outcome
        (frameNumber frameRate : num) (events : list (Z * ProcEvent)) :
  Reference.chronological events ->
  Reference.chunks_nonempty events ->
  let c := extractFrame frameNumber frameRate events in
  let exits_cleanly :=
    Reference.completes_in_time events = Some (Close (Some 0))
    /\ Reference.has_bytes (List.concat (Reference.output_before_exit events)) = true in
  timeoutMs = 10000
  /\ result c = Some (Reference.extract frameNumber frameRate events)
  /\ ((exists frame, result c = Some (Resolved frame)) <-> exits_cleanly)
  /\ (forall ev, Reference.completes_in_time events = Some ev -> ~ exits_cleanly ->
        exists e, result c = Some (Rejected e)
                  /\ Reference.kind e = Reference.ExtractionFailedKind
                  /\ killed c = false)
  /\ (Reference.completes_in_time events = None ->
        result c = Some (Rejected ExtractionTimeout) /\ killed c = true).
Proof.
  intros Hsorted Hdata c exits_cleanly.
  destruct (run_unsettled frameNumber frameRate events [] Hsorted Hdata (Forall_nil _))
    as [Hres Hkill].
  assert (Hr : result c = Some (Reference.extract frameNumber frameRate events)).
  { exact Hres. }
  assert (Hk : killed c = match Reference.completes_in_time events with
                          | Some _ => false
                          | None => true
                          end).
  { exact Hkill. }
  clear Hres Hkill. subst exits_cleanly.
  split; [reflexivity|]. split; [exact Hr|].
  rewrite Hr, Hk. unfold Reference.extract.
  pose proof (completes_not_data events) as Hnd.
  destruct (Reference.completes_in_time events) as [[chunk | code | message] |].
  - exfalso. exact (Hnd chunk eq_refl).
  - destruct (code_is_zero code) eqn:Ezero; cbn [andb].
    + assert (code = Some 0) as ->.
      { destruct code as [[| p | p] |]; trivial; discriminate. }
      destruct (Reference.has_bytes
                  (List.concat (Reference.output_before_exit events))).
      * split; [split|split].
        -- intros _. split; reflexivity.
        -- intros _. eexists; reflexivity.
        -- intros ev _ Hn. exfalso. apply Hn. split; reflexivity.
        -- discriminate.
      * split; [split|split].
        -- intros [frame H]. discriminate.
        -- intros [_ H]. discriminate.
        -- intros ev _ _. eexists. split; [reflexivity|]. split; reflexivity.
        -- discriminate.
    + split; [split|split].
      * intros [frame H]. discriminate.
      * intros [H _]. injection H as ->. discriminate.
      * intros ev _ _. eexists. split; [reflexivity|]. split; reflexivity.
      * discriminate.
  - split; [split|split].
    + intros [frame H]. discriminate.
    + intros [H _]. discriminate.
    + intros ev _ _. eexists. split; [reflexivity|]. split; reflexivity.
    + discriminate.
  - split; [split|split].
    + intros [frame H]. discriminate.
    + intros [H _]. discriminate.
    + intros ev H. discriminate.
    + intros _. split; reflexivity.
Qed.

(** The quick sample decode resolves with its four bytes. *)
Lemma extractFrame_outcome_witness :
  result (extractFrame (of_Z 150) (of_Z 30) Samples.quick_decode)
  = Some (Reference.extract (of_Z 150) (of_Z 30) Samples.quick_decode).
Proof.
  refine (proj1 (proj2 (extractFrame_outcome (of_Z 150) (of_Z 30)
                          Samples.quick_decode _ _))).
  - repeat constructor; simpl; lia.
  - intros t chunk Hin. simpl in Hin.
    destruct Hin as [Hin | [Hin | [Hin | Hin]]];
      try contradiction; try discriminate;
      injection Hin as _ <-; discriminate.
Defined.

(** Frame 150 at 30 frames per second carries the timestamp 5; a decode
    that overruns the wait is killed. *)
Example extractFrame_samples :
  result (extractFrame (of_Z 150) (of_Z 30) Samples.quick_decode)
  = Some (Resolved {| frameNumber := of_Z 150;
                      timestamp := Fin (inject_Z 150 / inject_Z 30);
                      data := [Byte.xff; Byte.xd8; Byte.xff; Byte.xd9];
                      format := "jpeg" |})
  /\ result (extractFrame (of_Z 150) (of_Z 30) Samples.slow_decode)
     = Some (Rejected ExtractionTimeout)
  /\ killed (extractFrame (of_Z 150) (of_Z 30) Samples.slow_decode) = true.
Proof. repeat split. Qed.

(* ===================================================================== *)
(** * The frame cache *)
(* ===================================================================== *)

Section Cache.

Context {V : Type}.

Implicit Types (c : FrameCache.t V) (m : FrameCache.JsMap V) (k : Z) (v : V).

Lemma map_set_length m k v :
  (List.length (FrameCache.map_set k v m) <= S (List.length m))%nat.
Proof.
  induction m as [| [k' v'] r IH]; simpl; [lia|].
  destruct (k' =? k); simpl; lia.
Qed.

Lemma map_delete_length m k :
  (List.length (FrameCache.map_delete k m) <= List.length m)%nat.
Proof. apply filter_length_le. Qed.

Lemma map_delete_first_length m k :
  FrameCache.map_first_key m = Some k ->
  (S (List.length (FrameCache.map_delete k m)) <= List.length m)%nat.
Proof.
  destruct m as [| [k' v'] r]; simpl; [discriminate|].
  intro H. injection H as ->. rewrite Z.eqb_refl. simpl.
  pose proof (map_delete_length r k). unfold FrameCache.map_delete in *. lia.
Qed.

(** A cache of capacity at least 1 never outgrows it through [set]. *)
Lemma set_keeps_bound c k v :
  1 <= FrameCache.maxSize c ->
  FrameCache.map_size (FrameCache.cache c) <= FrameCache.maxSize c ->
  FrameCache.map_size (FrameCache.cache (FrameCache.set k v c)) <= FrameCache.maxSize c.
Proof.
  intros Hcap Hsize. unfold FrameCache.set, FrameCache.map_size in *.
  cbn [FrameCache.cache FrameCache.with_cache].
  destruct (FrameCache.maxSize c <=? Z.of_nat (List.length (FrameCache.cache c)))
    eqn:Efull.
  - apply Z.leb_le in Efull.
    destruct (FrameCache.map_first_key (FrameCache.cache c)) as [oldest |] eqn:Ek.
    + pose proof (map_delete_first_length _ _ Ek).
      pose proof (map_set_length (FrameCache.map_delete oldest (FrameCache.cache c)) k v).
      lia.
    + destruct (FrameCache.cache c) as [| [k' v'] r]; [|discriminate].
      simpl in *. lia.
  - apply Z.leb_gt in Efull.
    pose proof (map_set_length (FrameCache.cache c) k v). lia.
Qed.

Lemma map_delete_present_length m k :
  FrameCache.map_has k m = true ->
  (S (List.length (FrameCache.map_delete k m)) <= List.length m)%nat.
Proof.
  induction m as [| [k' v'] r IH]; simpl; [discriminate|].
  destruct (k' =? k) eqn:E; simpl.
  - intros _. pose proof (map_delete_length r k).
    unfold FrameCache.map_delete in *. lia.
  - intro H. specialize (IH H). unfold FrameCache.map_delete in *. lia.
Qed.

(** Reading a frame moves it but adds nothing. *)
Lemma get_keeps_bound c k :
  FrameCache.map_size (FrameCache.cache (snd (FrameCache.get k c)))
  <= FrameCache.map_size (FrameCache.cache c).
Proof.
  unfold FrameCache.get, FrameCache.map_size.
  destruct (FrameCache.map_has k (FrameCache.cache c)) eqn:Eh; simpl; [|lia].
  destruct (FrameCache.map_get k (FrameCache.cache c)) as [value |]; simpl; [|lia].
  pose proof (map_delete_present_length _ _ Eh).
  pose proof (map_set_length (FrameCache.map_delete k (FrameCache.cache c)) k value).
  lia.
Qed.

Lemma map_set_get m k v : FrameCache.map_get k (FrameCache.map_set k v m) = Some v.
Proof.
  induction m as [| [k' v'] r IH]; simpl.
  - rewrite Z.eqb_refl. reflexivity.
  - destruct (k' =? k) eqn:E; simpl.
    + rewrite Z.eqb_refl. reflexivity.
    + rewrite E. exact IH.
Qed.

Lemma map_set_has m k v : FrameCache.map_has k (FrameCache.map_set k v m) = true.
Proof.
  induction m as [| [k' v'] r IH]; simpl.
  - rewrite Z.eqb_refl. reflexivity.
  - destruct (k' =? k) eqn:E; simpl.
    + rewrite Z.eqb_refl. reflexivity.
    + rewrite E. exact IH.
Qed.

(** X2.  A frame just stored is the frame read back, whatever the capacity. *)
Theorem get_after_set c k v :
  fst (FrameCache.get k (FrameCache.set k v c)) = Some v.
Proof.
  unfold FrameCache.get, FrameCache.set.
  cbn [FrameCache.cache FrameCache.with_cache].
  rewrite map_set_has, map_set_get. reflexivity.
Qed.

Lemma call_keeps_bound c (op : FrameCache.CacheCall V) :
  1 <= FrameCache.maxSize c ->
  FrameCache.map_size (FrameCache.cache c) <= FrameCache.maxSize c ->
  FrameCache.maxSize (FrameCache.call c op) = FrameCache.maxSize c
  /\ FrameCache.map_size (FrameCache.cache (FrameCache.call c op)) <= FrameCache.maxSize c.
Proof.
  intros Hcap Hsize. destruct op as [k v | k]; cbn [FrameCache.call].
  - split; [reflexivity | apply set_keeps_bound; assumption].
  - split.
    + unfold FrameCache.get.
      destruct (negb (FrameCache.map_has k (FrameCache.cache c))); [reflexivity|].
      destruct (FrameCache.map_get k (FrameCache.cache c)); reflexivity.
    + pose proof (get_keeps_bound c k). lia.
Qed.

(** X1.  A cache created with a capacity of at least 1 holds at most that
    many frames after any sequence of [set] and [get] calls. *)
Theorem size_never_exceeds_maxSize (capacity : Z) (calls : list (FrameCache.CacheCall V)) :
  1 <= capacity ->
  FrameCache.map_size
    (FrameCache.cache (fold_left FrameCache.call calls (FrameCache.create capacity)))
  <= capacity.
Proof.
  intro Hcap.
  assert (G : forall c,
    FrameCache.maxSize c = capacity ->
    FrameCache.map_size (FrameCache.cache c) <= capacity ->
    FrameCache.map_size (FrameCache.cache (fold_left FrameCache.call calls c)) <= capacity).
  { induction calls as [| op rest IH]; intros c Hmax Hsize; simpl; [exact Hsize|].
    destruct (call_keeps_bound c op) as [H1 H2]; try lia.
    apply IH; lia. }
  apply G; [reflexivity|]. unfold FrameCache.map_size. simpl. lia.
Qed.

(** ** The keys of the store stay distinct *)

Lemma keys_map_delete m k :
  map fst (FrameCache.map_delete k m)
  = filter (fun k' => negb (k' =? k)) (map fst m).
Proof.
  induction m as [| [k' v'] r IH]; simpl; [reflexivity|].
  destruct (k' =? k); simpl; rewrite IH; reflexivity.
Qed.

Lemma map_has_In m k : FrameCache.map_has k m = true <-> In k (map fst m).
Proof.
  unfold FrameCache.map_has. rewrite existsb_exists, in_map_iff.
  split.
  - intros (e & He & Hk). apply Z.eqb_eq in Hk. exists e. auto.
  - intros (e & Hk & He). exists e. split; [exact He | apply Z.eqb_eq, Hk].
Qed.

Lemma map_has_delete m k : FrameCache.map_has k (FrameCache.map_delete k m) = false.
Proof.
  destruct (FrameCache.map_has k (FrameCache.map_delete k m)) eqn:E; trivial.
  apply map_has_In in E. rewrite keys_map_delete in E.
  apply filter_In in E. destruct E as [_ E]. rewrite Z.eqb_refl in E. discriminate.
Qed.

Lemma keys_map_set m k v :
  map fst (FrameCache.map_set k v m)
  = if FrameCache.map_has k m then map fst m else map fst m ++ [k].
Proof.
  induction m as [| [k' v'] r IH]; simpl; [reflexivity|].
  destruct (k' =? k) eqn:E; simpl.
  - apply Z.eqb_eq in E. subst. reflexivity.
  - rewrite IH. destruct (FrameCache.map_has k r); reflexivity.
Qed.

Lemma NoDup_map_delete m k :
  NoDup (map fst m) -> NoDup (map fst (FrameCache.map_delete k m)).
Proof. intro H. rewrite keys_map_delete. apply NoDup_filter, H. Qed.

Lemma NoDup_map_set m k v :
  NoDup (map fst m) -> NoDup (map fst (FrameCache.map_set k v m)).
Proof.
  intro H. rewrite keys_map_set.
  destruct (FrameCache.map_has k m) eqn:E; [exact H|].
  apply NoDup_app; [exact H | repeat constructor; intros [] |].
  intros x Hx [Hk | []]. subst x.
  apply map_has_In in Hx. congruence.
Qed.

Lemma map_delete_absent m k :
  ~ In k (map fst m) -> FrameCache.map_delete k m = m.
Proof.
  induction m as [| [k' v'] r IH]; simpl; [reflexivity|].
  intro H. destruct (k' =? k) eqn:E.
  - apply Z.eqb_eq in E. exfalso. apply H. left. exact E.
  - simpl. f_equal. apply IH. intro Hin. apply H. right. exact Hin.
Qed.

Lemma map_delete_distinct_length m k :
  NoDup (map fst m) ->
  FrameCache.map_has k m = true ->
  S (List.length (FrameCache.map_delete k m)) = List.length m.
Proof.
  induction m as [| [k' v'] r IH]; simpl; [discriminate|].
  intros Hnd Hhas. apply NoDup_cons_iff in Hnd. destruct Hnd as [Hnotin Hnd].
  destruct (k' =? k) eqn:E; simpl.
  - apply Z.eqb_eq in E. subst k'.
    fold (FrameCache.map_delete k r). rewrite (map_delete_absent r k Hnotin).
    reflexivity.
  - fold (FrameCache.map_delete k r). rewrite (IH Hnd Hhas). reflexivity.
Qed.

Lemma map_set_new_length m k v :
  FrameCache.map_has k m = false ->
  List.length (FrameCache.map_set k v m) = S (List.length m).
Proof.
  intro H. rewrite <- (length_map fst), keys_map_set, H.
  rewrite length_app, length_map. simpl. lia.
Qed.

Lemma call_keeps_keys_distinct c (op : FrameCache.CacheCall V) :
  NoDup (map fst (FrameCache.cache c)) ->
  NoDup (map fst (FrameCache.cache (FrameCache.call c op))).
Proof.
  intro H. destruct op as [k v | k]; cbn [FrameCache.call].
  - unfold FrameCache.set. cbn [FrameCache.cache FrameCache.with_cache].
    apply NoDup_map_set.
    destruct (FrameCache.maxSize c <=? FrameCache.map_size (FrameCache.cache c));
      [|exact H].
    destruct (FrameCache.map_first_key (FrameCache.cache c));
      [apply NoDup_map_delete, H | exact H].
  - unfold FrameCache.get.
    destruct (negb (FrameCache.map_has k (FrameCache.cache c))); [exact H|].
    destruct (FrameCache.map_get k (FrameCache.cache c)); [|exact H].
    cbn [snd FrameCache.cache FrameCache.with_cache].
    apply NoDup_map_set, NoDup_map_delete, H.
Qed.

Lemma calls_keep_keys_distinct (calls : list (FrameCache.CacheCall V)) :
  forall c, NoDup (map fst (FrameCache.cache c)) ->
            NoDup (map fst (FrameCache.cache (fold_left FrameCache.call calls c))).
Proof.
  induction calls as [| op rest IH]; intros c H; simpl; [exact H|].
  apply IH, call_keeps_keys_distinct, H.
Qed.

(** X3.  Reading a frame, hit or miss, does not change the size of a cache
    that was filled through [set] and [get]. *)
Theorem get_keeps_size (capacity : Z) (calls : list (FrameCache.CacheCall V)) k :
  let c := fold_left FrameCache.call calls (FrameCache.create capacity) in
  FrameCache.map_size (FrameCache.cache (snd (FrameCache.get k c)))
  = FrameCache.map_size (FrameCache.cache c).
Proof.
  intro c.
  assert (Hnd : NoDup (map fst (FrameCache.cache c))).
  { apply calls_keep_keys_distinct. constructor. }
  unfold FrameCache.get, FrameCache.map_size.
  destruct (FrameCache.map_has k (FrameCache.cache c)) eqn:Eh; simpl; [|reflexivity].
  destruct (FrameCache.map_get k (FrameCache.cache c)) as [value |]; simpl;
    [|reflexivity].
  rewrite map_set_new_length by apply map_has_delete.
  rewrite (map_delete_distinct_length _ _ Hnd Eh). reflexivity.
Qed.

(** ** prefetch *)

Lemma pending_has_set k k' (p : list Z) :
  existsb (Z.eqb k) (FrameCache.pending_set k' p)
  = (k =? k') || existsb (Z.eqb k) p.
Proof.
  unfold FrameCache.pending_set.
  destruct (existsb (Z.eqb k') p) eqn:E.
  - destruct (k =? k') eqn:Ek; trivial.
    apply Z.eqb_eq in Ek. subst. exact E.
  - rewrite existsb_app. simpl. rewrite orb_false_r. apply orb_comm.
Qed.

Lemma mark_pending_spec (frames : list Z) :
  forall c k,
    FrameCache.pending_has k (FrameCache.mark_pending c frames)
    = existsb (Z.eqb k) frames || FrameCache.pending_has k c.
Proof.
  induction frames as [| f rest IH]; intros c k; simpl; [reflexivity|].
  unfold FrameCache.mark_pending in *. simpl. rewrite IH.
  unfold FrameCache.pending_has at 1. cbn [FrameCache.pendingRequests FrameCache.with_pending].
  rewrite pending_has_set. unfold FrameCache.pending_has.
  destruct (k =? f), (existsb (Z.eqb k) rest); reflexivity.
Qed.

Lemma mark_pending_cache (frames : list Z) :
  forall c, FrameCache.cache (FrameCache.mark_pending c frames) = FrameCache.cache c.
Proof.
  induction frames as [| f rest IH]; intro c; simpl; [reflexivity|].
  unfold FrameCache.mark_pending in *. simpl. rewrite IH. reflexivity.
Qed.

Lemma framesToFetch_filter c (currentFrame totalFrames : Z) (n : nat) :
  forall i, 1 <= i ->
  FrameCache.framesToFetch c currentFrame totalFrames i n
  = filter (FrameCache.fetched c currentFrame totalFrames)
           (Reference.neighbours currentFrame i n).
Proof.
  induction n as [| n IH]; intros i Hi; [reflexivity|].
  cbn [FrameCache.framesToFetch Reference.neighbours filter].
  rewrite (IH (i + 1)) by lia.
  assert (F1 : FrameCache.fetched c currentFrame totalFrames (currentFrame + i)
               = (currentFrame + i <? totalFrames)
                 && negb (FrameCache.has (currentFrame + i) c)
                 && negb (FrameCache.pending_has (currentFrame + i) c)).
  { unfold FrameCache.fetched.
    replace (currentFrame <? currentFrame + i) with true
      by (symmetry; apply Z.ltb_lt; lia).
    reflexivity. }
  assert (F2 : FrameCache.fetched c currentFrame totalFrames (currentFrame - i)
               = (0 <=? currentFrame - i)
                 && negb (FrameCache.has (currentFrame - i) c)
                 && negb (FrameCache.pending_has (currentFrame - i) c)).
  { unfold FrameCache.fetched.
    replace (currentFrame <? currentFrame - i) with false
      by (symmetry; apply Z.ltb_ge; lia).
    reflexivity. }
  rewrite <- F1, <- F2.
  destruct (FrameCache.fetched c currentFrame totalFrames (currentFrame + i)),
           (FrameCache.fetched c currentFrame totalFrames (currentFrame - i));
    reflexivity.
Qed.

Lemma neighbours_In (currentIndex : Z) (n : nat) :
  forall i k, In k (Reference.neighbours currentIndex i n) ->
              exists j, i <= j /\ (k = currentIndex + j \/ k = currentIndex - j).
Proof.
  induction n as [| n IH]; intros i k; simpl; [contradiction|].
  intros [H | [H | H]].
  - exists i. split; [lia | left; auto].
  - exists i. split; [lia | right; auto].
  - destruct (IH _ _ H) as (j & Hj & Hk). exists j. split; [lia | exact Hk].
Qed.

Lemma neighbours_NoDup (currentIndex : Z) (n : nat) :
  forall i, 1 <= i -> NoDup (Reference.neighbours currentIndex i n).
Proof.
  induction n as [| n IH]; intros i Hi; simpl; constructor.
  - intros [H | H]; [lia|].
    destruct (neighbours_In _ _ _ _ H) as (j & Hj & [Hk | Hk]); lia.
  - constructor.
    + intro H. destruct (neighbours_In _ _ _ _ H) as (j & Hj & [Hk | Hk]); lia.
    + apply IH. lia.
Qed.

Lemma prefetch_fetches c (currentFrame totalFrames radius : Z) :
  fst (FrameCache.prefetch currentFrame totalFrames radius c)
  = filter (FrameCache.fetched c currentFrame totalFrames)
           (Reference.neighbours currentFrame 1 (Z.to_nat radius)).
Proof. apply framesToFetch_filter. lia. Qed.

(** C4, as the code has it.  A call [prefetch(c, total, extractFn, radius)]
    invokes [extractFn] exactly on those of the indices [c+1, c-1, c+2, c-2,
    ..., c+radius, c-radius], in this order, that are not cached, not in
    flight and, for a forward index, below [total], for a backward index, at
    least 0, each of them once.  When [-1 <= c <= total] these are the
    candidates that lie in [0, total).  Every index invoked is marked as in
    flight, so a later [prefetch] on the cache it leaves, before any of the
    requests completes or the cache is cleared, invokes [extractFn] on none
    of them again. *)
Theorem prefetch_invocations c (currentIndex total radius : Z) :
  let candidates := Reference.neighbours currentIndex 1 (Z.to_nat radius) in
  let invoked := fst (FrameCache.prefetch currentIndex total radius c) in
  let c' := snd (FrameCache.prefetch currentIndex total radius c) in
  invoked = filter (FrameCache.fetched c currentIndex total) candidates
  /\ (-1 <= currentIndex <= total ->
      invoked
      = filter (fun k => (0 <=? k) && (k <? total)
                         && negb (FrameCache.has k c)
                         && negb (FrameCache.pending_has k c))
               candidates)
  /\ NoDup invoked
  /\ (forall k, In k invoked -> FrameCache.pending_has k c' = true)
  /\ (forall currentIndex2 total2 radius2 k,
        In k invoked ->
        ~ In k (fst (FrameCache.prefetch currentIndex2 total2 radius2 c'))).
Proof.
  intros candidates invoked c'. subst candidates invoked c'.
  rewrite prefetch_fetches.
  assert (Hmarked : forall k,
    In k (filter (FrameCache.fetched c currentIndex total)
                 (Reference.neighbours currentIndex 1 (Z.to_nat radius))) ->
    FrameCache.pending_has k
      (snd (FrameCache.prefetch currentIndex total radius c)) = true).
  { intros k Hin. unfold FrameCache.prefetch. cbn [snd].
    rewrite mark_pending_spec, framesToFetch_filter by lia.
    apply orb_true_iff. left. apply existsb_exists.
    exists k. split; [exact Hin | apply Z.eqb_refl]. }
  split; [reflexivity|]. split; [|split; [|split]].
  - intros Hrange. apply filter_ext_in. intros k Hin.
    destruct (neighbours_In _ _ _ _ Hin) as (j & Hj & [Hk | Hk]);
      subst k; unfold FrameCache.fetched.
    + replace (currentIndex <? currentIndex + j) with true
        by (symmetry; apply Z.ltb_lt; lia).
      replace (0 <=? currentIndex + j) with true
        by (symmetry; apply Z.leb_le; lia).
      reflexivity.
    + replace (currentIndex <? currentIndex - j) with false
        by (symmetry; apply Z.ltb_ge; lia).
      replace (currentIndex - j <? total) with true
        by (symmetry; apply Z.ltb_lt; lia).
      rewrite andb_true_r. reflexivity.
  - apply NoDup_filter, neighbours_NoDup. lia.
  - exact Hmarked.
  - intros currentIndex2 total2 radius2 k Hin Hagain.
    rewrite prefetch_fetches in Hagain.
    apply filter_In in Hagain. destruct Hagain as [_ Hf].
    unfold FrameCache.fetched in Hf. rewrite (Hmarked k Hin) in Hf.
    rewrite andb_false_r in Hf. discriminate.
Qed.

End Cache.

(** Around frame 5 of a clip of 10 frames everything asked for is in range. *)
Lemma prefetch_invocations_witness :
  fst (FrameCache.prefetch 5 10 3 Samples.empty_cache)
  = filter (fun k => (0 <=? k) && (k <? 10)
                     && negb (FrameCache.has k Samples.empty_cache)
                     && negb (FrameCache.pending_has k Samples.empty_cache))
           (Reference.neighbours 5 1 (Z.to_nat 3)).
Proof.
  refine (proj1 (proj2 (prefetch_invocations Samples.empty_cache 5 10 3)) _).
  lia.
Defined.

(** C4 as stated fails when the current index lies beyond the frame count
    (as it does while a clip of unknown length plays): from index 12 of 10
    frames the backward candidates 11 and 10 are requested, though only 9
    lies in [0, 10). *)
Lemma prefetch_beyond_the_end :
  fst (FrameCache.prefetch 12 10 3 Samples.empty_cache) = [11; 10; 9]
  /\ filter (fun k => (0 <=? k) && (k <? 10)
                      && negb (FrameCache.has k Samples.empty_cache)
                      && negb (FrameCache.pending_has k Samples.empty_cache))
            (Reference.neighbours 12 1 (Z.to_nat 3)) = [9].
Proof. split; reflexivity. Qed.

(** The controller's cache after three frames are stored and the first is
    read again: three frames, the one read last in the order. *)
Lemma size_never_exceeds_maxSize_witness :
  FrameCache.map_size
    (FrameCache.cache
       (fold_left FrameCache.call
          [ FrameCache.CallSet 4 (Samples.frame_at 4 [Byte.x04]);
            FrameCache.CallSet 5 (Samples.frame_at 5 [Byte.x05]);
            FrameCache.CallSet 6 (Samples.frame_at 6 [Byte.x06]);
            FrameCache.CallGet 4 ]
          (FrameCache.create 30)))
  <= 30.
Proof.
  apply (size_never_exceeds_maxSize 30
           [ FrameCache.CallSet 4 (Samples.frame_at 4 [Byte.x04]);
             FrameCache.CallSet 5 (Samples.frame_at 5 [Byte.x05]);
             FrameCache.CallSet 6 (Samples.frame_at 6 [Byte.x06]);
             FrameCache.CallGet 4 ]).
  lia.
Defined.

(** C3 at its failing input.  The cache of capacity 2 holds frames 1 and 2;
    storing frame 2 again, a key that is not new, evicts frame 1. *)
Theorem set_of_cached_key_evicts :
  FrameCache.maxSize Samples.full_cache = 2
  /\ map fst (FrameCache.cache Samples.full_cache) = [1; 2]
  /\ FrameCache.has 2 Samples.full_cache = true
  /\ map fst (FrameCache.cache
                (FrameCache.set 2 (Samples.frame_at 2 [Byte.x03]) Samples.full_cache))
     = [2]
  /\ FrameCache.has 1
       (FrameCache.set 2 (Samples.frame_at 2 [Byte.x03]) Samples.full_cache)
     = false.
Proof. repeat split. Qed.

(** C5 at its failing input.  Frame 1 is in flight when the cache is
    cleared; when its extraction completes afterwards the frame is stored
    in the cleared cache. *)
Theorem completion_after_clear_is_stored :
  fst (FrameCache.prefetch 0 10 1 Samples.empty_cache) = [1]
  /\ FrameCache.pending_has 1
       (snd (FrameCache.prefetch 0 10 1 Samples.empty_cache)) = true
  /\ FrameCache.has 1
       (FrameCache.clear (snd (FrameCache.prefetch 0 10 1 Samples.empty_cache)))
     = false
  /\ FrameCache.has 1
       (FrameCache.prefetch_resolved 1 (Samples.frame_at 1 [Byte.x01])
          (FrameCache.clear (snd (FrameCache.prefetch 0 10 1 Samples.empty_cache))))
     = true.
Proof. repeat split. Qed.

(* ===================================================================== *)
(** * The frame cache: recency order and in-flight bookkeeping *)
(* ===================================================================== *)

Section CacheOrder.

Context {V : Type}.

Implicit Types (c : FrameCache.t V) (m : FrameCache.JsMap V) (k : Z) (v : V).

Lemma map_get_absent m k :
  FrameCache.map_has k m = false -> FrameCache.map_get k m = None.
Proof.
  induction m as [| [k' v'] r IH]; simpl; [reflexivity|].
  destruct (k' =? k); simpl; [discriminate | exact IH].
Qed.

Lemma map_get_delete m k k' :
  k' <> k ->
  FrameCache.map_get k' (FrameCache.map_delete k m) = FrameCache.map_get k' m.
Proof.
  intro Hne. induction m as [| [k0 v0] r IH]; simpl; [reflexivity|].
  destruct (k0 =? k) eqn:E; simpl.
  - apply Z.eqb_eq in E. subst k0.
    replace (k =? k') with false by (symmetry; apply Z.eqb_neq; congruence).
    exact IH.
  - destruct (k0 =? k'); [reflexivity | exact IH].
Qed.

Lemma map_get_set_other m k v k' :
  k' <> k ->
  FrameCache.map_get k' (FrameCache.map_set k v m) = FrameCache.map_get k' m.
Proof.
  intro Hne. induction m as [| [k0 v0] r IH]; simpl.
  - replace (k =? k') with false by (symmetry; apply Z.eqb_neq; congruence).
    reflexivity.
  - destruct (k0 =? k) eqn:E; simpl.
    + apply Z.eqb_eq in E. subst k0.
      replace (k =? k') with false by (symmetry; apply Z.eqb_neq; congruence).
      reflexivity.
    + destruct (k0 =? k'); [reflexivity | exact IH].
Qed.

Lemma map_has_get m k :
  FrameCache.map_has k m
  = match FrameCache.map_get k m with Some _ => true | None => false end.
Proof.
  induction m as [| [k' v'] r IH]; simpl; [reflexivity|].
  destruct (k' =? k); simpl; [reflexivity | exact IH].
Qed.

(** Reading does not change what any key maps to. *)
Lemma get_keeps_lookup c k k' :
  FrameCache.map_get k' (FrameCache.cache (snd (FrameCache.get k c)))
  = FrameCache.map_get k' (FrameCache.cache c).
Proof.
  unfold FrameCache.get.
  destruct (FrameCache.map_has k (FrameCache.cache c)) eqn:Eh; cbn [negb];
    [|reflexivity].
  destruct (FrameCache.map_get k (FrameCache.cache c)) as [value |] eqn:Eg;
    [|reflexivity].
  cbn [snd FrameCache.cache FrameCache.with_cache].
  destruct (Z.eq_dec k' k) as [-> | Hne].
  - rewrite map_set_get. symmetry. exact Eg.
  - rewrite map_get_set_other, map_get_delete by exact Hne. reflexivity.
Qed.

Lemma get_keeps_has c k k' :
  FrameCache.has k' (snd (FrameCache.get k c)) = FrameCache.has k' c.
Proof.
  unfold FrameCache.has. rewrite !map_has_get, get_keeps_lookup. reflexivity.
Qed.

Lemma get_keeps_pending c k :
  FrameCache.pendingRequests (snd (FrameCache.get k c)) = FrameCache.pendingRequests c.
Proof.
  unfold FrameCache.get.
  destruct (negb (FrameCache.map_has k (FrameCache.cache c))); [reflexivity|].
  destruct (FrameCache.map_get k (FrameCache.cache c)); reflexivity.
Qed.

(** X4.  [get(k)] returns what the cache holds under [k], null on a miss;
    it leaves every key with the frame it had, and after a hit [k] is the
    most recently used key: the other keys keep their order and [k] comes
    last.  A miss changes nothing. *)
Theorem get_reads_and_touches c k :
  fst (FrameCache.get k c) = FrameCache.map_get k (FrameCache.cache c)
  /\ (forall k', FrameCache.map_get k' (FrameCache.cache (snd (FrameCache.get k c)))
                 = FrameCache.map_get k' (FrameCache.cache c))
  /\ (FrameCache.has k c = true ->
      map fst (FrameCache.cache (snd (FrameCache.get k c)))
      = filter (fun k' => negb (k' =? k)) (map fst (FrameCache.cache c)) ++ [k])
  /\ (FrameCache.has k c = false -> snd (FrameCache.get k c) = c).
Proof.
  split; [|split; [intro k'; apply get_keeps_lookup|]].
  - unfold FrameCache.get.
    pose proof (map_has_get (FrameCache.cache c) k) as Hg.
    destruct (FrameCache.map_has k (FrameCache.cache c)); cbn [negb];
      destruct (FrameCache.map_get k (FrameCache.cache c)); try discriminate;
      reflexivity.
  - unfold FrameCache.get, FrameCache.has.
    pose proof (map_has_get (FrameCache.cache c) k) as Hg.
    destruct (FrameCache.map_has k (FrameCache.cache c)); cbn [negb];
      destruct (FrameCache.map_get k (FrameCache.cache c)); try discriminate.
    + split; [|discriminate]. intros _.
      cbn [snd FrameCache.cache FrameCache.with_cache].
      rewrite keys_map_set, map_has_delete, keys_map_delete. reflexivity.
    + split; [discriminate | reflexivity].
Qed.

(** X5.  Storing a key that is not cached: below capacity the key is added
    as the most recent one and nothing is evicted; at capacity exactly the
    oldest key is evicted and the new key comes last.  Every key that stays
    keeps its frame. *)
Theorem set_new_key c k v :
  NoDup (map fst (FrameCache.cache c)) ->
  FrameCache.has k c = false ->
  let keys := map fst (FrameCache.cache c) in
  let c' := FrameCache.set k v c in
  (FrameCache.map_size (FrameCache.cache c) < FrameCache.maxSize c ->
     map fst (FrameCache.cache c') = keys ++ [k])
  /\ (FrameCache.maxSize c <= FrameCache.map_size (FrameCache.cache c) ->
     map fst (FrameCache.cache c') = tl keys ++ [k])
  /\ FrameCache.map_get k (FrameCache.cache c') = Some v
  /\ (forall k', k' <> k -> In k' (map fst (FrameCache.cache c')) ->
        FrameCache.map_get k' (FrameCache.cache c')
        = FrameCache.map_get k' (FrameCache.cache c)).
Proof.
  intros Hnd Hnew keys c'. subst keys c'.
  unfold FrameCache.set, FrameCache.has in *.
  cbn [FrameCache.cache FrameCache.with_cache].
  split; [|split; [|split]].
  - intro Hroom.
    replace (FrameCache.maxSize c <=? FrameCache.map_size (FrameCache.cache c))
      with false by (symmetry; apply Z.leb_gt; exact Hroom).
    rewrite keys_map_set, Hnew. reflexivity.
  - intro Hfull.
    replace (FrameCache.maxSize c <=? FrameCache.map_size (FrameCache.cache c))
      with true by (symmetry; apply Z.leb_le; exact Hfull).
    destruct (FrameCache.cache c) as [| [k0 v0] r] eqn:Ec; cbn [FrameCache.map_first_key].
    + reflexivity.
    + simpl in Hnd. apply NoDup_cons_iff in Hnd. destruct Hnd as [Hnotin _].
      assert (Hdel : FrameCache.map_delete k0 ((k0, v0) :: r) = r).
      { simpl. rewrite Z.eqb_refl. simpl. apply map_delete_absent, Hnotin. }
      rewrite Hdel, keys_map_set.
      simpl in Hnew. destruct (k0 =? k); [discriminate|]. simpl in Hnew.
      rewrite Hnew. reflexivity.
  - apply map_set_get.
  - intros k' Hne Hin. rewrite map_get_set_other by exact Hne.
    destruct (FrameCache.maxSize c <=? FrameCache.map_size (FrameCache.cache c));
      [|reflexivity].
    destruct (FrameCache.map_first_key (FrameCache.cache c)) as [oldest |] eqn:Eo;
      [|reflexivity].
    apply map_get_delete. intros ->.
    rewrite keys_map_set in Hin.
    assert (Hgone : ~ In oldest (map fst (FrameCache.map_delete oldest (FrameCache.cache c)))).
    { intro H. apply map_has_In in H. rewrite map_has_delete in H. discriminate. }
    destruct (FrameCache.map_has k (FrameCache.map_delete oldest (FrameCache.cache c))).
    + exact (Hgone Hin).
    + apply in_app_or in Hin. destruct Hin as [Hin | [Hin | []]];
        [exact (Hgone Hin) | congruence].
Qed.

End CacheOrder.

(** The full sample cache takes frame 3 in place of frame 1. *)
Lemma set_new_key_witness :
  map fst (FrameCache.cache
             (FrameCache.set 3 (Samples.frame_at 3 [Byte.x03]) Samples.full_cache))
  = tl (map fst (FrameCache.cache Samples.full_cache)) ++ [3].
Proof.
  refine (proj1 (proj2 (set_new_key Samples.full_cache 3
                          (Samples.frame_at 3 [Byte.x03]) _ _)) _).
  - repeat constructor; simpl; intuition lia.
  - reflexivity.
  - vm_compute. discriminate.
Defined.

Section CachePending.

Context {V : Type}.

Implicit Types (c : FrameCache.t V) (k : Z) (v : V).

Lemma has_after_set c k v k' :
  FrameCache.has k' (FrameCache.set k v c) = true ->
  k' = k \/ FrameCache.has k' c = true.
Proof.
  unfold FrameCache.has, FrameCache.set.
  cbn [FrameCache.cache FrameCache.with_cache].
  intro H. apply map_has_In in H. rewrite keys_map_set in H.
  assert (Hsub : forall m,
    In k' (map fst (if FrameCache.maxSize c <=? FrameCache.map_size (FrameCache.cache c)
                    then match FrameCache.map_first_key (FrameCache.cache c) with
                         | Some oldestKey => FrameCache.map_delete oldestKey (FrameCache.cache c)
                         | None => FrameCache.cache c
                         end
                    else FrameCache.cache c)) ->
    m = FrameCache.cache c -> In k' (map fst m)).
  { intros m Hin ->.
    destruct (FrameCache.maxSize c <=? FrameCache.map_size (FrameCache.cache c));
      [|exact Hin].
    destruct (FrameCache.map_first_key (FrameCache.cache c)); [|exact Hin].
    rewrite keys_map_delete in Hin. apply filter_In in Hin. apply Hin. }
  match type of H with
  | In _ (if ?b then _ else _) => destruct b
  end.
  - right. apply map_has_In. exact (Hsub _ H eq_refl).
  - apply in_app_or in H. destruct H as [H | [H | []]].
    + right. apply map_has_In. exact (Hsub _ H eq_refl).
    + left. congruence.
Qed.

Lemma pending_has_delete k k' (p : list Z) :
  existsb (Z.eqb k') (FrameCache.pending_delete k p)
  = negb (k' =? k) && existsb (Z.eqb k') p.
Proof.
  unfold FrameCache.pending_delete.
  induction p as [| x r IH]; simpl; [symmetry; apply andb_false_r|].
  destruct (x =? k) eqn:Ex; simpl; rewrite IH.
  - apply Z.eqb_eq in Ex. subst x.
    destruct (k' =? k); reflexivity.
  - destruct (k' =? x) eqn:Ek; simpl; [|reflexivity].
    apply Z.eqb_eq in Ek. subst x. rewrite Ex. reflexivity.
Qed.

(** No index is both cached and in flight. *)
Let settled_or_pending c : Prop :=
  forall k, FrameCache.has k c = true -> FrameCache.pending_has k c = false.

Lemma happen_keeps_apart c (ev : FrameCache.CacheEvent V) :
  settled_or_pending c -> settled_or_pending (FrameCache.happen c ev).
Proof.
  intros Hinv k. destruct ev as [cur total radius | f data | f | f |];
    cbn [FrameCache.happen].
  - (* prefetch *)
    unfold FrameCache.prefetch. cbn [snd]. unfold FrameCache.has.
    rewrite mark_pending_cache, mark_pending_spec. intro Hhas.
    rewrite (Hinv k Hhas), orb_false_r.
    destruct (existsb (Z.eqb k)
                (FrameCache.framesToFetch c cur total 1 (Z.to_nat radius))) eqn:E;
      [|reflexivity].
    apply existsb_exists in E. destruct E as (x & Hin & Hx).
    apply Z.eqb_eq in Hx. subst x.
    rewrite framesToFetch_filter in Hin by lia.
    apply filter_In in Hin. destruct Hin as [_ Hf].
    unfold FrameCache.fetched, FrameCache.has in Hf. rewrite Hhas in Hf.
    rewrite andb_false_r in Hf. discriminate.
  - (* a completion *)
    unfold FrameCache.prefetch_resolved, FrameCache.pending_has, FrameCache.has.
    cbn [FrameCache.cache FrameCache.pendingRequests FrameCache.with_pending].
    intro Hhas. rewrite pending_has_delete.
    destruct (has_after_set c f data k Hhas) as [-> | Hold].
    + rewrite Z.eqb_refl. reflexivity.
    + pose proof (Hinv k Hold) as Hp. unfold FrameCache.pending_has in Hp.
      change (FrameCache.pendingRequests (FrameCache.set f data c))
        with (FrameCache.pendingRequests c).
      rewrite Hp. apply andb_false_r.
  - (* a failure *)
    unfold FrameCache.prefetch_rejected, FrameCache.pending_has, FrameCache.has.
    cbn [FrameCache.cache FrameCache.pendingRequests FrameCache.with_pending].
    intro Hhas. rewrite pending_has_delete.
    pose proof (Hinv k Hhas) as Hp. unfold FrameCache.pending_has in Hp.
    rewrite Hp. apply andb_false_r.
  - (* a read *)
    rewrite get_keeps_has. unfold FrameCache.pending_has.
    rewrite get_keeps_pending. apply Hinv.
  - (* clear *)
    discriminate.
Qed.

(** X6.  A cache that is filled only by prefetching never holds an index
    both as a cached frame and as an in-flight request, whatever the order
    of prefetch calls, completions, failures, reads and clears, including
    completions that arrive after a clear. *)
Theorem cached_and_pending_are_disjoint
        (capacity : Z) (events : list (FrameCache.CacheEvent V)) k :
  FrameCache.has k (fold_left FrameCache.happen events (FrameCache.create capacity))
  = true ->
  FrameCache.pending_has k
    (fold_left FrameCache.happen events (FrameCache.create capacity)) = false.
Proof.
  assert (G : forall c, settled_or_pending c ->
                        settled_or_pending (fold_left FrameCache.happen events c)).
  { induction events as [| ev rest IH]; intros c H; simpl; [exact H|].
    apply IH, happen_keeps_apart, H. }
  apply G. intros k' H. discriminate.
Qed.

(** X7.  A failed extraction is retried: when [prefetch] has requested an
    index and that request fails, the index is neither cached nor in
    flight, and the same [prefetch] call requests it again. *)
Theorem failed_prefetch_is_retried c (currentFrame totalFrames radius : Z) k :
  In k (fst (FrameCache.prefetch currentFrame totalFrames radius c)) ->
  let c' := FrameCache.prefetch_rejected k
              (snd (FrameCache.prefetch currentFrame totalFrames radius c)) in
  FrameCache.has k c' = false
  /\ FrameCache.pending_has k c' = false
  /\ In k (fst (FrameCache.prefetch currentFrame totalFrames radius c')).
Proof.
  intros Hin c'. subst c'.
  rewrite prefetch_fetches in Hin. apply filter_In in Hin.
  destruct Hin as [Hcand Hf].
  assert (Hhas : FrameCache.has k
            (FrameCache.prefetch_rejected k
               (snd (FrameCache.prefetch currentFrame totalFrames radius c))) = false).
  { unfold FrameCache.prefetch_rejected, FrameCache.prefetch, FrameCache.has.
    cbn [snd FrameCache.cache FrameCache.with_pending].
    rewrite mark_pending_cache.
    unfold FrameCache.fetched, FrameCache.has in Hf.
    destruct (FrameCache.map_has k (FrameCache.cache c)); [|reflexivity].
    rewrite andb_false_r in Hf. discriminate. }
  assert (Hpend : FrameCache.pending_has k
            (FrameCache.prefetch_rejected k
               (snd (FrameCache.prefetch currentFrame totalFrames radius c))) = false).
  { unfold FrameCache.prefetch_rejected, FrameCache.pending_has.
    cbn [FrameCache.pendingRequests FrameCache.with_pending].
    rewrite pending_has_delete, Z.eqb_refl. reflexivity. }
  split; [exact Hhas|]. split; [exact Hpend|].
  rewrite prefetch_fetches. apply filter_In. split; [exact Hcand|].
  unfold FrameCache.fetched in *. rewrite Hhas, Hpend.
  apply andb_true_iff in Hf. destruct Hf as [Hf _].
  apply andb_true_iff in Hf. destruct Hf as [Hf _].
  rewrite Hf. reflexivity.
Qed.

(** X8.  [getStats] on a cache of capacity at least 1 that was filled
    through [set] and [get]: [frames] lists the cached indices, each once,
    oldest first; [size] is their number and is at most [maxSize]. *)
Theorem getStats_is_consistent
        (capacity : Z) (calls : list (FrameCache.CacheCall V)) :
  1 <= capacity ->
  let c := fold_left FrameCache.call calls (FrameCache.create capacity) in
  let stats := FrameCache.getStats c in
  NoDup (FrameCache.stats_frames stats)
  /\ (forall k, In k (FrameCache.stats_frames stats) <-> FrameCache.has k c = true)
  /\ FrameCache.stats_size stats = Z.of_nat (List.length (FrameCache.stats_frames stats))
  /\ FrameCache.stats_size stats <= FrameCache.stats_maxSize stats
  /\ FrameCache.stats_maxSize stats = capacity.
Proof.
  intros Hcap c stats. subst stats. unfold FrameCache.getStats.
  cbn [FrameCache.stats_frames FrameCache.stats_size FrameCache.stats_maxSize].
  assert (G : forall calls0 c0,
    FrameCache.maxSize c0 = capacity ->
    FrameCache.map_size (FrameCache.cache c0) <= capacity ->
    FrameCache.maxSize (fold_left FrameCache.call calls0 c0) = capacity
    /\ FrameCache.map_size (FrameCache.cache (fold_left FrameCache.call calls0 c0))
       <= capacity).
  { induction calls0 as [| op rest IH]; intros c0 Hmax Hsize; simpl; [auto|].
    destruct (call_keeps_bound c0 op) as [H1 H2]; try lia.
    apply IH; lia. }
  destruct (G calls (FrameCache.create capacity)) as [Hmax Hsize];
    [reflexivity | unfold FrameCache.map_size; simpl; lia |].
  fold c in Hmax, Hsize.
  split; [|split; [|split; [|split]]].
  - apply calls_keep_keys_distinct. constructor.
  - intro k. symmetry. apply map_has_In.
  - unfold FrameCache.map_size. rewrite length_map. reflexivity.
  - lia.
  - exact Hmax.
Qed.

End CachePending.

(** Around frame 5 the first request is frame 6; it fails and is asked for
    again. *)
Lemma failed_prefetch_is_retried_witness :
  In 6 (fst (FrameCache.prefetch 5 10 3
               (FrameCache.prefetch_rejected 6
                  (snd (FrameCache.prefetch 5 10 3 Samples.empty_cache))))).
Proof.
  refine (proj2 (proj2 (failed_prefetch_is_retried Samples.empty_cache 5 10 3 6 _))).
  simpl. auto.
Defined.

(** The controller's cache, empty. *)
Lemma cached_and_pending_are_disjoint_witness :
  FrameCache.pending_has 6
    (fold_left FrameCache.happen
       [ FrameCache.EvPrefetch 5 10 3;
         FrameCache.EvClear;
         FrameCache.EvResolved 6 (Samples.frame_at 6 [Byte.x06]) ]
       (FrameCache.create 30)) = false.
Proof.
  apply (cached_and_pending_are_disjoint 30
           [ FrameCache.EvPrefetch 5 10 3;
             FrameCache.EvClear;
             FrameCache.EvResolved 6 (Samples.frame_at 6 [Byte.x06]) ] 6).
  reflexivity.
Defined.

(** Three frames in the controller's cache. *)
Lemma getStats_is_consistent_witness :
  FrameCache.stats_size
    (FrameCache.getStats
       (fold_left FrameCache.call
          [ FrameCache.CallSet 4 (Samples.frame_at 4 [Byte.x04]);
            FrameCache.CallSet 5 (Samples.frame_at 5 [Byte.x05]);
            FrameCache.CallGet 4 ]
          (FrameCache.create 30)))
  <= FrameCache.stats_maxSize
       (FrameCache.getStats
          (fold_left FrameCache.call
             [ FrameCache.CallSet 4 (Samples.frame_at 4 [Byte.x04]);
               FrameCache.CallSet 5 (Samples.frame_at 5 [Byte.x05]);
               FrameCache.CallGet 4 ]
             (FrameCache.create 30))).
Proof.
  refine (proj1 (proj2 (proj2 (proj2
            (getStats_is_consistent 30
               [ FrameCache.CallSet 4 (Samples.frame_at 4 [Byte.x04]);
                 FrameCache.CallSet 5 (Samples.frame_at 5 [Byte.x05]);
                 FrameCache.CallGet 4 ] _))))).
  lia.
Defined.

(* ===================================================================== *)
(** * The frame extractor: seek plan and batches *)
(* ===================================================================== *)

(** X9.  The seek plan of [extractFrame] for frame [n >= 0] at a positive
    frame rate [r]: the coarse seek point lies between 0 and the target
    time, at most 2 seconds before it; the frame selected after the seek is
    a whole number between 0 and [n], at most [2r + 1/2], so that no more
    than about two seconds of frames are decoded; it is [n] itself when the
    target lies within the first 2 seconds. *)
Theorem seek_plan_bounds (n : Z) (r : Q) :
  0 <= n ->
  (0 < r)%Q ->
  exists (t : Q) (rel : Z),
    seekTime (of_Z n) (Fin r) = Fin t
    /\ (0 <= t)%Q /\ (t <= inject_Z n / r)%Q /\ (inject_Z n / r - t <= 2)%Q
    /\ same (relativeFrame (of_Z n) (Fin r)) (of_Z rel)
    /\ 0 <= rel <= n
    /\ (inject_Z rel <= 2 * r + (1 # 2))%Q
    /\ ((inject_Z n <= 2 * r)%Q -> rel = n)
    /\ ((2 * r < inject_Z n)%Q -> (2 * r - (1 # 2) <= inject_Z rel)%Q).
Proof.
  intros HnZ Hr. pose proof HnZ as Hn. rewrite Zle_Qle in Hn.
  assert (Hr0 : Qeq_bool r 0 = false) by (apply Qeq_bool_false; lra).
  assert (Hx : (inject_Z n / r * r == inject_Z n)%Q) by (field; lra).
  set (nq := inject_Z n) in *.
  assert (Hn0 : (0 <= nq)%Q) by (unfold inject_Z in Hn; exact Hn).
  unfold relativeFrame, seekTime, of_Z. fold nq.
  unfold div. rewrite Hr0. unfold sub, add, neg, max, ltb.
  destruct (Qltb (inject_Z 0) (nq / r + - inject_Z 2)) eqn:E.
  - (* the target lies beyond the first two seconds *)
    apply Qltb_lt in E.
    assert (E' : (2 < nq / r)%Q) by (unfold inject_Z in E; lra).
    assert (Hbig : (2 * r < nq)%Q) by nra.
    unfold mul, round.
    set (k := Qfloor ((nq / r + - inject_Z 2) * r + (1 # 2))).
    assert (Hval : ((nq / r + - inject_Z 2) * r + (1 # 2) == nq - 2 * r + (1 # 2))%Q).
    { unfold inject_Z. field. lra. }
    pose proof (Qfloor_le ((nq / r + - inject_Z 2) * r + (1 # 2))) as Hlo.
    pose proof (Qlt_floor ((nq / r + - inject_Z 2) * r + (1 # 2))) as Hhi.
    fold k in Hlo, Hhi. rewrite Hval in Hlo, Hhi. rewrite inject_Z_plus in Hhi.
    assert (Hk0 : 0 <= k).
    { apply Qfloor_lower. rewrite Hval. unfold inject_Z. lra. }
    assert (Hkn : k <= n).
    { destruct (Z_le_gt_dec k n) as [H | H]; [exact H|].
      assert (H' : n + 1 <= k) by lia.
      rewrite Zle_Qle, inject_Z_plus in H'. fold nq in H'.
      unfold inject_Z in *. lra. }
    exists (nq / r + - inject_Z 2)%Q, (n - k).
    split; [reflexivity|].
    split; [unfold inject_Z in *; lra|].
    split; [unfold inject_Z; lra|].
    split; [unfold inject_Z; lra|].
    split.
    { simpl. unfold Z.sub. rewrite inject_Z_plus, inject_Z_opp. reflexivity. }
    split; [lia|].
    assert (Hrel : (inject_Z (n - k) == nq - inject_Z k)%Q).
    { unfold Z.sub. rewrite inject_Z_plus, inject_Z_opp. reflexivity. }
    split; [rewrite Hrel; unfold inject_Z in *; lra|].
    split; [intro; lra|].
    intros _. rewrite Hrel. unfold inject_Z in *. lra.
  - (* the target lies within the first two seconds *)
    apply Qltb_ge in E.
    assert (E' : (nq / r <= 2)%Q) by (unfold inject_Z in E; lra).
    assert (Hsmall : (nq <= 2 * r)%Q) by nra.
    unfold mul, round.
    assert (Hk : Qfloor (inject_Z 0 * r + (1 # 2)) = 0).
    { apply Qfloor_unique; unfold inject_Z; lra. }
    rewrite Hk.
    exists (inject_Z 0), n.
    split; [reflexivity|].
    split; [unfold inject_Z; lra|].
    split; [unfold inject_Z; apply Qle_shift_div_l; lra|].
    split; [unfold inject_Z; lra|].
    split.
    { simpl. fold nq. unfold inject_Z. ring. }
    split; [lia|].
    split; [fold nq; lra|].
    split; [reflexivity|].
    intro. lra.
Qed.

(** Frame 150 at 30 frames per second: seek to second 3, select frame 60. *)
Lemma seek_plan_bounds_witness :
  exists (t : Q) (rel : Z),
    seekTime (of_Z 150) (Fin 30) = Fin t
    /\ (0 <= t)%Q /\ (t <= inject_Z 150 / 30)%Q /\ (inject_Z 150 / 30 - t <= 2)%Q
    /\ same (relativeFrame (of_Z 150) (Fin 30)) (of_Z rel)
    /\ 0 <= rel <= 150
    /\ (inject_Z rel <= 2 * 30 + (1 # 2))%Q
    /\ ((inject_Z 150 <= 2 * 30)%Q -> rel = 150)
    /\ ((2 * 30 < inject_Z 150)%Q -> (2 * 30 - (1 # 2) <= inject_Z rel)%Q).
Proof.
  apply (seek_plan_bounds 150 30).
  - lia.
  - reflexivity.
Defined.

Section Settling.

Variables index fps : num.

(** The promise is settled exactly when it has a result, and the timer is
    armed exactly until then. *)
Let coherent (c : Call) : Prop :=
  if settled c then timerArmed c = false /\ result c <> None
  else timerArmed c = true.

Lemma deliver_coherent (now : Z) (ev : ProcEvent) (c : Call) :
  coherent c -> coherent (deliver index fps ev (fire_if_due now c)).
Proof.
  unfold coherent, fire_if_due, on_timeout. intro H.
  destruct (settled c) eqn:Es.
  - destruct H as [Ht Hres]. rewrite Ht. cbn [andb].
    destruct ev; simpl; unfold on_close, on_error; rewrite ?Es; simpl;
      rewrite ?Es; auto.
  - rewrite H. cbn [andb].
    destruct (timeoutMs <=? now); rewrite ?Es;
      destruct ev; simpl; unfold on_close, on_error; simpl; rewrite ?Es;
      try (split; [reflexivity | discriminate]); auto.
    destruct (code_is_zero code && (0 <? Z.of_nat (List.length (chunks c))));
      simpl; split; (reflexivity || discriminate).
Qed.

Lemma run_coherent (events : list (Z * ProcEvent)) :
  forall c, coherent c -> coherent (run index fps events c).
Proof.
  induction events as [| [now ev] rest IH]; intros c H; simpl; [exact H|].
  apply IH, deliver_coherent, H.
Qed.

(** Whatever the process does, the call settles. *)
Lemma extractFrame_settles (events : list (Z * ProcEvent)) :
  result (extractFrame index fps events) <> None.
Proof.
  unfold extractFrame.
  pose proof (run_coherent events spawned) as H.
  assert (H0 : coherent spawned) by reflexivity.
  specialize (H H0). unfold coherent in H.
  destruct (settled (run index fps events spawned)) eqn:Es.
  - destruct H as [Ht Hres]. rewrite Ht. exact Hres.
  - rewrite H. unfold on_timeout. rewrite Es. simpl. discriminate.
Qed.

(** A frame that is delivered carries the number it was asked for. *)
Lemma run_frameNumber (events : list (Z * ProcEvent)) :
  forall c frame,
    (forall f, result c = Some (Resolved f) -> frameNumber f = index) ->
    result (run index fps events c) = Some (Resolved frame) ->
    frameNumber frame = index.
Proof.
  induction events as [| [now ev] rest IH]; intros c frame Hc; simpl.
  - apply Hc.
  - apply IH. intros f.
    unfold fire_if_due, on_timeout.
    destruct (timerArmed c && (timeoutMs <=? now)).
    + destruct (settled c) eqn:Es.
      * destruct ev; simpl; unfold on_close, on_error; rewrite ?Es; try apply Hc.
      * destruct ev; simpl; unfold on_close, on_error; simpl; discriminate.
    + destruct ev; simpl; unfold on_close, on_error; try apply Hc.
      * destruct (settled c); [apply Hc|].
        destruct (code_is_zero code && (0 <? Z.of_nat (List.length (chunks c))));
          simpl; intro H; [injection H as <-; reflexivity | discriminate].
      * destruct (settled c); [apply Hc|]. simpl. discriminate.
Qed.

Lemma extractFrame_frameNumber (events : list (Z * ProcEvent)) (frame : ExtractedFrame) :
  result (extractFrame index fps events) = Some (Resolved frame) ->
  frameNumber frame = index.
Proof.
  unfold extractFrame.
  destruct (timerArmed (run index fps events spawned)).
  - unfold on_timeout.
    destruct (settled (run index fps events spawned)); [|simpl; discriminate].
    apply run_frameNumber. discriminate.
  - apply run_frameNumber. discriminate.
Qed.

End Settling.

(** X10.  [extractFramesBatch] always answers, whatever the decode
    processes do: it yields one entry per requested frame number, in the
    order of the request, and each entry, be it the frame or the error
    object, carries the frame number asked for at its place. *)
Theorem extractFramesBatch_answers
        (frameRate : num) (requests : list (num * list (Z * ProcEvent))) :
  exists entries,
    extractFramesBatch frameRate requests = Some entries
    /\ map entry_frameNumber entries = map fst requests.
Proof.
  unfold extractFramesBatch.
  induction requests as [| [n events] rest IH]; simpl.
  - exists []. split; reflexivity.
  - destruct IH as (entries & Hrest & Hnums). rewrite Hrest.
    pose proof (extractFrame_settles n frameRate events) as Hs.
    pose proof (extractFrame_frameNumber n frameRate events) as Hn.
    destruct (result (extractFrame n frameRate events)) as [[frame | err] |].
    + exists (BatchFrame frame :: entries). split; [reflexivity|].
      simpl. rewrite (Hn frame eq_refl), Hnums. reflexivity.
    + exists (BatchError n err :: entries). split; [reflexivity|].
      simpl. rewrite Hnums. reflexivity.
    + contradiction.
Qed.

(* ===================================================================== *)
(** * The metadata prober: reading a rate *)
(* ===================================================================== *)

Ltac by_char c H :=
  destruct c as [[] [] [] [] [] [] [] []];
  try (vm_compute in H; discriminate H).

Lemma split_on_plain (sep : ascii) (l : list ascii) :
  forall cur, ~ In sep l -> JsString.split_on sep cur l = [rev cur ++ l].
Proof.
  induction l as [| c r IH]; intros cur Hno; simpl.
  - rewrite app_nil_r. reflexivity.
  - destruct (Ascii.eqb c sep) eqn:E.
    + apply Ascii.eqb_eq in E. exfalso. apply Hno. left. exact E.
    + rewrite IH by (intro H; apply Hno; right; exact H).
      simpl. rewrite <- app_assoc. reflexivity.
Qed.

Lemma split_on_first (sep : ascii) (l rest : list ascii) :
  forall cur, ~ In sep l ->
  JsString.split_on sep cur (l ++ sep :: rest)
  = (rev cur ++ l) :: JsString.split_on sep [] rest.
Proof.
  induction l as [| c r IH]; intros cur Hno; simpl.
  - rewrite Ascii.eqb_refl, app_nil_r. reflexivity.
  - destruct (Ascii.eqb c sep) eqn:E.
    + apply Ascii.eqb_eq in E. exfalso. apply Hno. left. exact E.
    + rewrite IH by (intro H; apply Hno; right; exact H).
      simpl. rewrite <- app_assoc. reflexivity.
Qed.

Lemma decimal_is_no_slash (l : list ascii) :
  Reference.all_decimal l = true -> ~ In "/"%char l.
Proof.
  intros H Hin. unfold Reference.all_decimal in H.
  rewrite forallb_forall in H. specialize (H _ Hin). discriminate.
Qed.

Lemma decimal_digit_in (c : ascii) :
  Reference.is_decimal c = true ->
  JsString.digit_in 10 c = Some (JsString.code c - 48).
Proof.
  intro H. unfold JsString.digit_in. unfold Reference.is_decimal in H.
  rewrite H. apply andb_true_iff in H. destruct H as [H1 H2].
  apply Z.leb_le in H1. apply Z.leb_le in H2.
  replace (JsString.code c - 48 <? 10) with true
    by (symmetry; apply Z.ltb_lt; lia).
  reflexivity.
Qed.

Lemma scan_digits_decimal (l : list ascii) :
  forall acc count,
    Reference.all_decimal l = true ->
    JsString.scan_digits 10 acc count l
    = (fold_left (fun a c => a * 10 + (JsString.code c - 48)) l acc,
       (count + List.length l)%nat, []).
Proof.
  induction l as [| c r IH]; intros acc count H; simpl.
  - rewrite Nat.add_0_r. reflexivity.
  - simpl in H. apply andb_true_iff in H. destruct H as [Hc Hr].
    rewrite (decimal_digit_in c Hc), IH by exact Hr.
    rewrite Nat.add_succ_r. reflexivity.
Qed.

Lemma decimal_is_no_space (c : ascii) :
  Reference.is_decimal c = true -> JsString.is_space c = false.
Proof. intro H. by_char c H; reflexivity. Qed.

Lemma trim_decimal (l : list ascii) :
  Reference.all_decimal l = true -> JsString.trim l = l.
Proof.
  intro H. unfold JsString.trim.
  assert (D : forall l0, Reference.all_decimal l0 = true ->
                         JsString.drop_spaces l0 = l0).
  { intros [| c r] H0; [reflexivity|]. simpl in *.
    apply andb_true_iff in H0. destruct H0 as [Hc _].
    rewrite (decimal_is_no_space c Hc). reflexivity. }
  rewrite (D l H), D, rev_involutive; [reflexivity|].
  unfold Reference.all_decimal in *. rewrite forallb_forall in *.
  intros x Hx. apply H. apply in_rev. exact Hx.
Qed.

(** The literal is decimal: no radix prefix, no sign, not "Infinity". *)
Lemma Number_dispatch (c : ascii) (r : list ascii) :
  Reference.all_decimal (c :: r) = true ->
  JsString.Number (string_of_list_ascii (c :: r))
  = match JsString.scan_unsigned (c :: r) with
    | Some (v, []) => v
    | _ => NaN
    end.
Proof.
  intro H. unfold JsString.Number, JsString.chars.
  rewrite list_ascii_of_string_of_list_ascii, (trim_decimal _ H).
  assert (Hc : Reference.is_decimal c = true).
  { simpl in H. apply andb_true_iff in H. apply H. }
  assert (Hsign : JsString.scan_signed (c :: r)
                  = match JsString.scan_unsigned (c :: r) with
                    | Some (v, r') => Some (v, r')
                    | None => None
                    end).
  { unfold JsString.scan_signed.
    assert (Hs : JsString.scan_sign (c :: r) = (false, c :: r)).
    { clear H. by_char c Hc; reflexivity. }
    rewrite Hs. reflexivity. }
  assert (Hbody :
    match c :: r with
    | [] => of_Z 0
    | "0"%char :: ("x" | "X")%char :: r0 => JsString.radix_literal 16 r0
    | "0"%char :: ("o" | "O")%char :: r0 => JsString.radix_literal 8 r0
    | "0"%char :: ("b" | "B")%char :: r0 => JsString.radix_literal 2 r0
    | l => match JsString.scan_signed l with
           | Some (v, []) => v
           | _ => NaN
           end
    end
    = match JsString.scan_signed (c :: r) with
      | Some (v, []) => v
      | _ => NaN
      end).
  { destruct r as [| c2 r2].
    - clear H Hsign. by_char c Hc; reflexivity.
    - assert (Hc2 : Reference.is_decimal c2 = true).
      { simpl in H. apply andb_true_iff in H. destruct H as [_ H].
        apply andb_true_iff in H. apply H. }
      clear H Hsign. by_char c Hc; try reflexivity.
      by_char c2 Hc2; reflexivity. }
  rewrite Hbody, Hsign.
  destruct (JsString.scan_unsigned (c :: r)) as [[v [| x rest]] |]; reflexivity.
Qed.

(** [Number] reads a string of decimal digits as the number it writes. *)
Lemma Number_decimal (l : list ascii) :
  l <> [] ->
  Reference.all_decimal l = true ->
  same (JsString.Number (string_of_list_ascii l))
       (of_Z (Reference.digits_value l)).
Proof.
  intros Hne H. destruct l as [| c r]; [contradiction|].
  rewrite (Number_dispatch c r H).
  assert (Hc : Reference.is_decimal c = true).
  { simpl in H. apply andb_true_iff in H. apply H. }
  unfold JsString.scan_unsigned.
  assert (Hinf : JsString.starts_with (JsString.chars "Infinity") (c :: r) = None).
  { clear H. by_char c Hc; reflexivity. }
  rewrite Hinf, (scan_digits_decimal (c :: r) 0 0%nat H).
  cbn [Nat.add List.length JsString.scan_exponent].
  unfold Reference.digits_value. simpl. ring.
Qed.

(** X11.  Reading a rate.  For strings [N] and [D] of decimal digits,
    the rate written "N/D" is read as the quotient of the two numbers, and
    as [N] itself when [D] is zero; a rate written as digits alone is read
    as that number. *)
Theorem parseRate_of_ratio (ns ds : list ascii) :
  ns <> [] ->
  ds <> [] ->
  Reference.all_decimal ns = true ->
  Reference.all_decimal ds = true ->
  same (parseRate (string_of_list_ascii (ns ++ "/"%char :: ds)))
       (if Reference.digits_value ds =? 0
        then of_Z (Reference.digits_value ns)
        else Fin (inject_Z (Reference.digits_value ns)
                  / inject_Z (Reference.digits_value ds)))
  /\ same (parseRate (string_of_list_ascii ns)) (of_Z (Reference.digits_value ns)).
Proof.
  intros Hns Hds Hn Hd.
  destruct (same_fin_inv _ _ (Number_decimal ns Hns Hn)) as (n & En & Hnv).
  destruct (same_fin_inv _ _ (Number_decimal ds Hds Hd)) as (d & Ed & Hdv).
  split.
  - unfold parseRate, JsString.split, JsString.chars.
    rewrite list_ascii_of_string_of_list_ascii.
    rewrite (split_on_first "/" ns ds []) by (apply decimal_is_no_slash, Hn).
    rewrite (split_on_plain "/" ds []) by (apply decimal_is_no_slash, Hd).
    cbn [rev app map nth nth_error]. rewrite En, Ed.
    unfold truthy, div.
    destruct (Reference.digits_value ds =? 0) eqn:Ez.
    + apply Z.eqb_eq in Ez. rewrite Ez in Hdv.
      assert (E : Qeq_bool d 0 = true).
      { apply Qeq_bool_iff. rewrite Hdv. reflexivity. }
      rewrite E. simpl. exact Hnv.
    + apply Z.eqb_neq in Ez.
      assert (E : Qeq_bool d 0 = false).
      { apply Qeq_bool_false. rewrite Hdv. intro H0.
        apply Ez. apply inject_Z_injective. exact H0. }
      rewrite E. simpl. rewrite Hnv, Hdv. reflexivity.
  - unfold parseRate, JsString.split, JsString.chars.
    rewrite list_ascii_of_string_of_list_ascii.
    rewrite (split_on_plain "/" ns []) by (apply decimal_is_no_slash, Hn).
    cbn [rev app map nth nth_error]. rewrite En. exact Hnv.
Qed.

(** The NTSC rate. *)
Lemma parseRate_of_ratio_witness :
  same (parseRate (string_of_list_ascii
                     (JsString.chars "30000" ++ "/"%char :: JsString.chars "1001")))
       (if Reference.digits_value (JsString.chars "1001") =? 0
        then of_Z (Reference.digits_value (JsString.chars "30000"))
        else Fin (inject_Z (Reference.digits_value (JsString.chars "30000"))
                  / inject_Z (Reference.digits_value (JsString.chars "1001")))).
Proof.
  refine (proj1 (parseRate_of_ratio (JsString.chars "30000") (JsString.chars "1001")
                   _ _ _ _)).
  - discriminate.
  - discriminate.
  - reflexivity.
  - reflexivity.
Defined.

(** X12.  The duration of a descriptor is always a number, never NaN: it
    is the duration of the video stream when that reads as a number other
    than 0, else the duration of the container when that does, else 0; in
    this last case the frame count is 0 for every finite frame rate. *)
Theorem duration_falls_back (md : ProbeData) (vs : Stream) (d : Metadata) :
  find is_video (streams md) = Some vs ->
  getMetadata (ProbeOk md) = Resolved d ->
  duration d <> NaN
  /\ (truthy (JsString.parseFloat (stream_duration vs)) = true ->
      duration d = JsString.parseFloat (stream_duration vs))
  /\ (truthy (JsString.parseFloat (stream_duration vs)) = false ->
      truthy (JsString.parseFloat (format_duration md)) = true ->
      duration d = JsString.parseFloat (format_duration md))
  /\ (truthy (JsString.parseFloat (stream_duration vs)) = false ->
      truthy (JsString.parseFloat (format_duration md)) = false ->
      duration d = of_Z 0
      /\ forall q, resolveFrameRate vs = Fin q -> same (totalFrames d) (of_Z 0)).
Proof.
  intros Hfind H. rewrite (getMetadata_resolved md vs d Hfind H).
  cbn [duration totalFrames]. unfold resolveDuration, or_else.
  destruct (truthy (JsString.parseFloat (stream_duration vs))) eqn:E1.
  - split; [|split; [reflexivity | split; discriminate]].
    intro Hnan. rewrite Hnan in E1. discriminate.
  - destruct (truthy (JsString.parseFloat (format_duration md))) eqn:E2.
    + split; [|split; [discriminate | split; [reflexivity | discriminate]]].
      intro Hnan. rewrite Hnan in E2. discriminate.
    + split; [discriminate|]. split; [discriminate|]. split; [discriminate|].
      intros _ _. split; [reflexivity|].
      intros q Hq. rewrite Hq. unfold mul, floor, of_Z.
      assert (E : Qfloor (q * inject_Z 0) = 0).
      { apply Qfloor_unique; unfold inject_Z; lra. }
      rewrite E. apply same_refl.
Qed.

(** The NTSC sample takes the duration of its stream. *)
Lemma duration_falls_back_witness :
  duration Samples.ntsc_descriptor
  = JsString.parseFloat (stream_duration Samples.ntsc_stream).
Proof.
  refine (proj1 (proj2 (duration_falls_back (Samples.only Samples.ntsc_stream)
                          Samples.ntsc_stream Samples.ntsc_descriptor _ _)) _);
    reflexivity.
Defined.

(* ===================================================================== *)
(** * The navigation coordinator: stepping, resuming, loading *)
(* ===================================================================== *)

Lemma set_isStepping_emit_undo (e : Effect) (st : State) :
  isStepping st = false ->
  set_isStepping false (emit e (set_isStepping true st)) = emit e st.
Proof. destruct st; simpl; intros ->; reflexivity. Qed.

(** A call that returns has released the lock, whatever it did. *)
Lemma stepFrame_returns_unlocked
      (st : State) (during : State -> State) (delta : num) :
  isStepping st = false -> isStepping (stepFrame during delta st) = false.
Proof.
  unfold stepFrame, stepFrame_begin. intro Hs.
  destruct (metadata st) as [md |]; [|exact Hs]. rewrite Hs.
  match goal with |- context [strict_eq ?a ?b] => destruct (strict_eq a b) end;
    [reflexivity|].
  match goal with |- context [seekVideoToTime ?t ?s] =>
    destruct (seekVideoToTime t s) as [| st3 |]
  end.
  - apply stepFrame_resume_spec.
  - apply stepFrame_resume_spec.
  - reflexivity.
Qed.

(** A call that waits for the element holds the lock on a loaded video. *)
Lemma stepFrame_begin_seeking
      (st s : State) (delta targetFrame targetTime : num) :
  stepFrame_begin delta st = Seeking targetFrame targetTime s ->
  isStepping st = false
  /\ isStepping s = true
  /\ metadata s = metadata st
  /\ metadata st <> None.
Proof.
  unfold stepFrame_begin.
  destruct (metadata st) as [md |] eqn:Hmd; [|discriminate].
  destruct (isStepping st) eqn:Hs; [discriminate|].
  match goal with |- context [strict_eq ?a ?b] => destruct (strict_eq a b) end;
    [discriminate|].
  unfold seekVideoToTime.
  match goal with |- context [ltb ?a ?b] => destruct (ltb a b) end;
    [discriminate|].
  unfold video_seek.
  match goal with |- context [is_finite ?t] => destruct (is_finite t) end;
    [|discriminate].
  intro H. injection H as _ _ <-.
  split; [reflexivity|]. split; [reflexivity|].
  split; [|discriminate].
  cbn [metadata set_videoElement set_isStepping].
  destruct (isPlaying st); [|exact Hmd].
  unfold video_pause. cbn [metadata set_videoElement]. exact Hmd.
Qed.

Lemma stepFrame_begin_locked (st : State) (delta : num) :
  isStepping st = true -> stepFrame_begin delta st = Returned st.
Proof.
  intro Hs. unfold stepFrame_begin.
  destruct (metadata st); [|reflexivity]. rewrite Hs. reflexivity.
Qed.

(** X13.  The stepping lock is held exactly while a step is in flight.  A
    call of [stepFrame] made while no step is in flight ends with the lock
    released when it returns, whether it returns at once, completes its
    seek, or fails.  It does not return exactly when it waits for the
    element and the 'seeked' event never arrives; then the lock stays held
    and every later call of [stepFrame] is ignored.  A call made while a
    step is in flight changes nothing. *)
Theorem stepFrame_releases_lock
        (st : State) (seeked : option (State -> State)) (delta : num) :
  (isStepping st = false ->
     isStepping (fst (stepFrame_run seeked delta st))
     = negb (snd (stepFrame_run seeked delta st)))
  /\ (snd (stepFrame_run seeked delta st) = false <->
      seeked = None
      /\ exists targetFrame targetTime s,
           stepFrame_begin delta st = Seeking targetFrame targetTime s)
  /\ (snd (stepFrame_run seeked delta st) = false ->
      forall seeked' delta',
        stepFrame_run seeked' delta' (fst (stepFrame_run seeked delta st))
        = (fst (stepFrame_run seeked delta st), true))
  /\ (isStepping st = true -> stepFrame_run seeked delta st = (st, true))
  /\ (forall during, seeked = Some during ->
        stepFrame_run seeked delta st = (stepFrame during delta st, true)).
Proof.
  split; [|split; [|split; [|split]]].
  - intro Hs.
    pose proof (stepFrame_returns_unlocked st (fun s => s) delta Hs) as Hret.
    unfold stepFrame_run. unfold stepFrame in Hret.
    destruct (stepFrame_begin delta st) as [st' | tf tt st'] eqn:Eb.
    + exact Hret.
    + destruct seeked as [during |]; cbn [fst snd negb].
      * apply stepFrame_resume_spec.
      * apply (stepFrame_begin_seeking st st' delta tf tt Eb).
  - unfold stepFrame_run.
    destruct (stepFrame_begin delta st) as [st' | tf tt st'].
    + split; [discriminate | intros (_ & tf & tt & s & H); discriminate].
    + destruct seeked as [during |]; cbn [snd].
      * split; [discriminate | intros (H & _); discriminate].
      * split; [intros _; split; [reflexivity | eauto] | reflexivity].
  - intro Hsnd.
    assert (E : exists tf tt s,
               stepFrame_begin delta st = Seeking tf tt s
               /\ stepFrame_run seeked delta st = (s, false)).
    { unfold stepFrame_run in *.
      destruct (stepFrame_begin delta st) as [st' | tf tt st'];
        [discriminate|].
      destruct seeked as [during |]; [discriminate|]. eauto. }
    destruct E as (tf & tt & s & Eb & ->). cbn [fst].
    intros seeked' delta'.
    destruct (stepFrame_begin_seeking st s delta tf tt Eb) as (_ & Hlock & _).
    unfold stepFrame_run. rewrite (stepFrame_begin_locked s delta' Hlock).
    reflexivity.
  - intro Hs. unfold stepFrame_run.
    rewrite (stepFrame_begin_locked st delta Hs). reflexivity.
  - intros during ->. unfold stepFrame_run, stepFrame.
    destruct (stepFrame_begin delta st); reflexivity.
Qed.

(** A step from frame 41 of the sample clip whose 'seeked' event never
    arrives leaves the lock held. *)
Lemma stepFrame_releases_lock_witness :
  isStepping (fst (stepFrame_run None (of_Z 1) (Samples.paused_at 41)))
  = negb (snd (stepFrame_run None (of_Z 1) (Samples.paused_at 41)))
  /\ snd (stepFrame_run None (of_Z 1) (Samples.paused_at 41)) = false.
Proof.
  split.
  - refine (proj1 (stepFrame_releases_lock (Samples.paused_at 41) None (of_Z 1)) _).
    reflexivity.
  - reflexivity.
Defined.



Lemma seek_to_infinite_time_throws (t r : Q) (st : State) :
  (r == 0)%Q ->
  seekVideoToTime (mul (Fin t) (div (of_Z 1) (Fin r))) st = SeekThrew.
Proof.
  intro Hr. unfold div, of_Z.
  assert (E : Qeq_bool r 0 = true) by (apply Qeq_bool_iff; exact Hr).
  rewrite E. change (Qeq_bool (inject_Z 1) 0) with false. cbv iota.
  change (signed_inf (Qltb 0 (inject_Z 1))) with PInf.
  unfold mul, mul_inf, seekVideoToTime.
  destruct (Qeq_bool t 0); [|destruct (Bool.eqb true (Qltb 0 t))];
    destruct (currentTime (videoElement st)); reflexivity.
Qed.

(** X15.  A step that fails leaves the navigation state as it was.  When
    the descriptor's frame rate is 0 the target time is not finite, the
    native seek raises, and a step towards another frame only logs the
    error: the frame index, the mode and the element's position are
    unchanged, the lock is released, and a playing video has been paused. *)
Theorem stepFrame_fails_cleanly
        (st : State) (md : Metadata) (during : State -> State)
        (delta : num) (r t : Q) :
  metadata st = Some md ->
  isStepping st = false ->
  frameRate md = Fin r ->
  (r == 0)%Q ->
  clampedTarget (currentFrame st) delta (totalFrames md) = Fin t ->
  strict_eq (Fin t) (currentFrame st) = false ->
  stepFrame during delta st
  = emit ConsoleError (if isPlaying st then video_pause st else st).
Proof.
  intros Hmd Hstep Hrate Hr Htarget Hmove.
  unfold stepFrame, stepFrame_begin. rewrite Hmd, Hstep.
  through_pause. rewrite Htarget, Hmove, Hrate.
  rewrite (seek_to_infinite_time_throws t r _ Hr).
  apply set_isStepping_emit_undo. rewrite isStepping_after_pause. exact Hstep.
Qed.

(** A clip whose rate rounds to 0: the step from frame 0 to frame 1 fails. *)
Lemma stepFrame_fails_cleanly_witness :
  stepFrame Samples.undisturbed (of_Z 1) (Samples.crawl_paused_at 0)
  = emit ConsoleError (Samples.crawl_paused_at 0).
Proof.
  apply (stepFrame_fails_cleanly (Samples.crawl_paused_at 0) Samples.crawl_descriptor
           Samples.undisturbed (of_Z 1)
           (0 # 1000) 1);
    reflexivity.
Defined.

(** X16.  Seeking to the very start.  On a loaded video whose frame rate
    is finite and not zero, with no step in flight and the player paused or
    in frame mode: when the computed target of [seekToProgress(f)] is frame
    0 or below (as for [f = 0], which is what [goToBeginning] asks for),
    the call puts the index at 0 and then steps forward by one; when that
    step completes it ends on frame 1 of a video with at least two frames,
    and on frame 0 only when there is no second frame. *)
Theorem seekToProgress_at_start
        (st : State) (md : Metadata) (during : State -> State)
        (f d r : Q) (n : Z) :
  metadata st = Some md ->
  isStepping st = false ->
  isFrameMode st || paused (videoElement st) = true ->
  duration md = Fin d ->
  frameRate md = Fin r ->
  ~ (r == 0)%Q ->
  totalFrames md = of_Z n ->
  (forall s, metadata (during s) = metadata s) ->
  Qfloor (f * d * r + (1 # 2)) <= 0 ->
  (2 <= n -> same (currentFrame (seekToProgress during (Fin f) st)) (of_Z 1))
  /\ (n <= 1 -> same (currentFrame (seekToProgress during (Fin f) st)) (of_Z 0))
  /\ ((f == 0)%Q -> goToBeginning during st = seekToProgress during (of_Z 0) st).
Proof.
  intros Hmd Hstep Hmode Hd Hr Hr0 Hn Hduring HT.
  destruct (clampedTarget_fin (inject_Z 0) (inject_Z 1) (inject_Z n))
    as (t & Ht & Htv).
  assert (Hland :
    same (currentFrame (seekToProgress during (Fin f) st)) (Fin t)).
  { unfold seekToProgress. rewrite Hmd, Hmode, Hd, Hr.
    unfold mul, round.
    assert (Hprev : max (of_Z 0)
                      (sub (of_Z (Qfloor (f * d * r + (1 # 2)))) (of_Z 1))
                    = Fin (inject_Z 0)).
    { unfold max, sub, add, neg, of_Z, ltb.
      replace (Qltb (inject_Z 0)
                 (inject_Z (Qfloor (f * d * r + (1 # 2))) + - inject_Z 1))
        with false; [reflexivity|].
      symmetry. apply Qltb_ge. rewrite Zle_Qle in HT.
      set (q := inject_Z (Qfloor (f * d * r + (1 # 2)))) in *.
      unfold inject_Z in *. lra. }
    rewrite Hprev.
    apply (stepFrame_lands (set_currentFrame (Fin (inject_Z 0)) st) md during
             (of_Z 1) r t); trivial.
    simpl currentFrame. rewrite Hn. exact Ht. }
  split; [|split].
  - intro H2. eapply same_trans; [exact Hland|]. simpl. rewrite Htv.
    rewrite Zle_Qle in H2.
    rewrite Q.min_l by (unfold inject_Z in *; lra).
    rewrite Q.max_r by (unfold inject_Z; lra). unfold inject_Z; lra.
  - intro H1. eapply same_trans; [exact Hland|]. simpl. rewrite Htv.
    rewrite Zle_Qle in H1.
    rewrite Q.min_r by (unfold inject_Z in *; lra).
    rewrite Q.max_l by (unfold inject_Z in *; lra). reflexivity.
  - intros _. unfold goToBeginning. rewrite Hmd. reflexivity.
Qed.

(** The paused sample clip, sent to its beginning from frame 40. *)
Lemma seekToProgress_at_start_witness :
  same (currentFrame
          (seekToProgress Samples.undisturbed (Fin 0) (Samples.paused_at 40)))
       (of_Z 1).
Proof.
  refine (proj1 (seekToProgress_at_start (Samples.paused_at 40) Samples.clip100
                   Samples.undisturbed 0 10 10 100 _ _ _ _ _ _ _ _ _) _);
    try reflexivity; try lia;
    try (intro H; vm_compute in H; discriminate);
    try (vm_compute; discriminate).
Defined.

Lemma isFrameMode_enterFrameMode (st : State) :
  isFrameMode (enterFrameMode st) = true.
Proof.
  unfold enterFrameMode. destruct (isFrameMode st) eqn:E; simpl; [exact E | reflexivity].
Qed.

Lemma stepFrame_resume_frame_mode (tf tt : num) (st : State) (md : Metadata) :
  metadata st = Some md -> isFrameMode (stepFrame_resume tf tt st) = true.
Proof.
  intro H. unfold stepFrame_resume. simpl. rewrite H. simpl.
  apply isFrameMode_enterFrameMode.
Qed.

(** A step that moves ends in frame mode. *)
Lemma stepFrame_moves (st : State) (md : Metadata) (during : State -> State)
      (delta : num) (r t : Q) :
  metadata st = Some md ->
  isStepping st = false ->
  frameRate md = Fin r ->
  ~ (r == 0)%Q ->
  clampedTarget (currentFrame st) delta (totalFrames md) = Fin t ->
  strict_eq (Fin t) (currentFrame st) = false ->
  (forall s, metadata (during s) = metadata s) ->
  isFrameMode (stepFrame during delta st) = true.
Proof.
  intros Hmd Hstep Hrate Hr Htarget Hmove Hduring.
  unfold stepFrame, stepFrame_begin.
  rewrite Hmd, Hstep. through_pause. rewrite Htarget, Hmove, Hrate.
  unfold div, of_Z. apply Qeq_bool_false in Hr. rewrite Hr. unfold mul.
  unfold seekVideoToTime.
  match goal with |- context [ltb ?a ?b] => destruct (ltb a b) end.
  - apply (stepFrame_resume_frame_mode _ _ _ md). through_pause. exact Hmd.
  - match goal with |- context [video_seek (Fin ?q) ?s] =>
      destruct (video_seek_fin q s) as (st' & Hseek & Hm' & _); rewrite Hseek
    end.
    apply (stepFrame_resume_frame_mode _ _ _ md).
    rewrite Hduring, Hm'. through_pause. exact Hmd.
Qed.

(** Leaving frame mode puts the element at the time of the shown frame. *)
Lemma play_from_frame_mode (st : State) (md : Metadata) (c r : Q) :
  metadata st = Some md ->
  frameRate md = Fin r ->
  ~ (r == 0)%Q ->
  isFrameMode st = true ->
  currentFrame st = Fin c ->
  currentTime (videoElement (play st)) = Fin (c / r)
  /\ isFrameMode (play st) = false
  /\ paused (videoElement (play st)) = false
  /\ currentFrame (play st) = Fin c
  /\ metadata (play st) = Some md
  /\ hidden (videoElement (play st)) = false
  /\ canvasVisible (play st) = false.
Proof.
  intros Hmd Hrate Hr Hmode Hc.
  unfold play, exitFrameMode. rewrite Hmd, Hmode. simpl.
  rewrite Hmd, Hc, Hrate. unfold div.
  apply Qeq_bool_false in Hr. rewrite Hr. simpl.
  repeat split; assumption.
Qed.

(** X17.  Playback resumes from the frame that is shown.  After a step
    that has moved to frame [i], [play()] leaves frame mode, shows the video
    surface again, and starts the element at the time [i / frameRate]; the
    frame tracker, called with that time, reports frame [i] again. *)
Theorem play_resumes_from_shown_frame
        (st : State) (md : Metadata) (during : State -> State)
        (delta : num) (r : Q) (i : Z) :
  metadata st = Some md ->
  isStepping st = false ->
  frameRate md = Fin r ->
  ~ (r == 0)%Q ->
  same (clampedTarget (currentFrame st) delta (totalFrames md)) (of_Z i) ->
  strict_eq (clampedTarget (currentFrame st) delta (totalFrames md))
            (currentFrame st) = false ->
  (forall s, metadata (during s) = metadata s) ->
  let resumed := play (stepFrame during delta st) in
  same (currentTime (videoElement resumed)) (Fin (inject_Z i / r))
  /\ paused (videoElement resumed) = false
  /\ isFrameMode resumed = false
  /\ hidden (videoElement resumed) = false
  /\ canvasVisible resumed = false
  /\ same (currentFrame
             (onVideoFrame (currentTime (videoElement resumed)) resumed))
          (of_Z i).
Proof.
  intros Hmd Hstep Hrate Hr Htarget Hmove Hduring resumed. subst resumed.
  destruct (same_fin_inv _ _ Htarget) as (t & Ht & Hti).
  rewrite Ht in Hmove.
  destruct (stepFrame_lands st md during delta r t Hmd Hstep Hrate Hr Ht Hduring)
    as (Hm & Hcf).
  pose proof (stepFrame_moves st md during delta r t Hmd Hstep Hrate Hr Ht Hmove
                Hduring) as Hfm.
  destruct (same_fin_inv _ _ Hcf) as (c & Hc & Hct).
  destruct (play_from_frame_mode _ md c r Hm Hrate Hr Hfm Hc)
    as (Htime & Hmode & Hpaused & Hframe & Hmeta & Hhid & Hcanvas).
  rewrite Htime, Hpaused, Hmode, Hhid, Hcanvas.
  assert (Hci : (c == inject_Z i)%Q) by (rewrite Hct; exact Hti).
  split; [simpl; rewrite Hci; reflexivity|].
  repeat (split; [reflexivity|]).
  unfold onVideoFrame. rewrite Hmeta, Hmode. cbn [negb].
  cbn [currentFrame emit set_currentFrame]. rewrite Hrate. unfold mul, round.
  assert (E : Qfloor (c / r * r + (1 # 2)) = i).
  { apply Qfloor_unique.
    - assert (X : (c / r * r == c)%Q) by (field; exact Hr).
      rewrite X, Hci. unfold inject_Z. lra.
    - assert (X : (c / r * r == c)%Q) by (field; exact Hr).
      rewrite X, Hci. unfold inject_Z. lra. }
  rewrite E. apply same_refl.
Qed.

(** Stepping from frame 41 to 42 of the sample clip and playing on. *)
Lemma play_resumes_from_shown_frame_witness :
  same (currentTime
          (videoElement
             (play (stepFrame Samples.undisturbed (of_Z 1) (Samples.paused_at 41)))))
       (Fin (inject_Z 42 / 10)).
Proof.
  refine (proj1 (play_resumes_from_shown_frame (Samples.paused_at 41) Samples.clip100
                   Samples.undisturbed (of_Z 1) 10 42 _ _ _ _ _ _ _));
    try reflexivity.
  intro H. vm_compute in H. discriminate.
Defined.

(** X18.  The life cycle of a load.  Whatever was loaded before,
    [loadVideo] starts from the reset state: frame 0, continuous mode, no
    step in flight, an empty cache with nothing in flight.  It returns true
    exactly when the probe answers and the element loads the file, and then
    the element has been asked to play.  When the probe fails no media is
    loaded ([metadata] is null); when the probe answers, [metadata] is the
    probed descriptor, also when the element then fails to load the file. *)
Theorem loadVideo_outcome
        (st : State) (path : string) (probe : Promise Metadata string)
        (elementLoads : bool) :
  let st' := fst (loadVideo path probe elementLoads st) in
  let ok := snd (loadVideo path probe elementLoads st) in
  (ok = true <-> (exists md, probe = Resolved md) /\ elementLoads = true)
  /\ filePath st' = Some path
  /\ currentFrame st' = of_Z 0
  /\ isFrameMode st' = false
  /\ isStepping st' = false
  /\ FrameCache.cache (frameCache st') = []
  /\ FrameCache.pendingRequests (frameCache st') = []
  /\ (forall e, probe = Rejected e -> metadata st' = None)
  /\ (forall md, probe = Resolved md -> metadata st' = Some md)
  /\ (ok = true -> paused (videoElement st') = false).
Proof.
  intros st' ok. subst st' ok. unfold loadVideo.
  destruct probe as [md | e].
  - destruct elementLoads; cbn.
    + split.
      { split; [intros _; split; [exists md; reflexivity | reflexivity] | reflexivity]. }
      do 6 (split; [reflexivity|]).
      split; [discriminate|]. split; [intros md' H; injection H as ->; reflexivity|].
      reflexivity.
    + split.
      { split; [discriminate | intros [_ H]; discriminate]. }
      do 6 (split; [reflexivity|]).
      split; [discriminate|]. split; [intros md' H; injection H as ->; reflexivity|].
      discriminate.
  - cbn. split.
    { split; [discriminate | intros [[md H] _]; discriminate]. }
    do 6 (split; [reflexivity|]).
    split; [reflexivity|]. split; [discriminate | discriminate].
Qed.

(* ===================================================================== *)
(** * Sound and speed *)
(* ===================================================================== *)

Section SoundAndSpeed.
Import PlayerControls.

(** [Math.max(lo, Math.min(hi, v))] on finite numbers. *)
Lemma clamp_Fin (lo hi v : Q) :
  (lo <= hi)%Q ->
  exists c, max (Fin lo) (min (Fin hi) (Fin v)) = Fin c
            /\ (lo <= c)%Q /\ (c <= hi)%Q
            /\ ((lo <= v)%Q -> (v <= hi)%Q -> (c == v)%Q)
            /\ ((v <= lo)%Q -> (c == lo)%Q)
            /\ ((hi <= v)%Q -> (c == hi)%Q).
Proof.
  intro Hlh. unfold min, ltb.
  destruct (Qltb v hi) eqn:E1.
  - apply Qltb_lt in E1. unfold max, ltb.
    destruct (Qltb lo v) eqn:E2.
    + apply Qltb_lt in E2. exists v.
      split; [reflexivity|]. split; [lra|]. split; [lra|].
      split; [intros; reflexivity|]. split; intro; lra.
    + apply Qltb_ge in E2. exists lo.
      split; [reflexivity|]. split; [lra|]. split; [lra|].
      split; [intros; lra|]. split; intro; lra.
  - apply Qltb_ge in E1. unfold max, ltb.
    destruct (Qltb lo hi) eqn:E2.
    + exists hi.
      split; [reflexivity|]. split; [lra|]. split; [lra|].
      split; [intros; lra|]. split; intro; lra.
    + apply Qltb_ge in E2. exists lo.
      split; [reflexivity|]. split; [lra|]. split; [lra|].
      split; [intros; lra|]. split; intro; lra.
Qed.

(** A multiple of the step that is not negative goes through
    [Number(x.toFixed(2))] unchanged. *)
Lemma toFixedNumber_quarter (q : Q) (k : Z) :
  (q == inject_Z k * (1 # 4))%Q -> 0 <= k <= 8 ->
  exists q', toFixedNumber 2 (Fin q) = Fin q' /\ (q' == q)%Q.
Proof.
  intros Eq Hk.
  assert (Hk0 : (0 <= inject_Z k)%Q)
    by (change 0%Q with (inject_Z 0); rewrite <- Zle_Qle; lia).
  assert (Hk8 : (inject_Z k <= 8)%Q)
    by (change 8%Q with (inject_Z 8); rewrite <- Zle_Qle; lia).
  assert (Hq0 : (0 <= q)%Q) by (rewrite Eq; lra).
  assert (Ha : (Qabs q == q)%Q) by (apply Qabs_pos, Hq0).
  unfold toFixedNumber.
  destruct (Qle_bool (inject_Z (10 ^ 21)) (Qabs q)) eqn:Ebig.
  { apply Qle_bool_iff in Ebig. rewrite Ha, Eq in Ebig.
    change (inject_Z (10 ^ 21)) with (1000000000000000000000 # 1)%Q in Ebig.
    lra. }
  assert (Eneg : Qltb q 0 = false) by (apply Qltb_ge, Hq0).
  rewrite Eneg.
  change (inject_Z (10 ^ 2)) with (100 # 1)%Q.
  assert (Efl : Qfloor (Qabs q * (100 # 1) + (1 # 2)) = 25 * k).
  { apply Qfloor_unique; rewrite inject_Z_mult;
      change (inject_Z 25) with (25 # 1)%Q; rewrite Ha, Eq; lra. }
  rewrite Efl. eexists. split; [reflexivity|].
  rewrite inject_Z_mult. change (inject_Z 25) with (25 # 1)%Q.
  rewrite Eq. field.
Qed.

(** What [normalizePlaybackRate] computes on a finite number. *)
Lemma normalizePlaybackRate_spec (v : Q) :
  exists (q c : Q) (k : Z),
    normalizePlaybackRate (Fin v) = Fin q
    /\ (q == inject_Z k * (1 # 4))%Q
    /\ 1 <= k <= 8
    /\ max (Fin (1 # 4)) (min (Fin 2) (Fin v)) = Fin c
    /\ k = Qfloor (c * 4 + (1 # 2)).
Proof.
  destruct (clamp_Fin (1 # 4) 2 v) as (c & Ec & Hlo & Hhi & _); [lra|].
  unfold normalizePlaybackRate, minPlaybackRate, maxPlaybackRate,
    playbackRateStep, of_Z.
  change (inject_Z 2) with 2%Q. rewrite Ec.
  change (div (Fin c) (Fin (1 # 4))) with (Fin (c / (1 # 4))).
  unfold round, of_Z, mul.
  set (k := Qfloor (c / (1 # 4) + (1 # 2))).
  assert (Ek : k = Qfloor (c * 4 + (1 # 2))).
  { subst k. apply Qfloor_comp. field. }
  assert (Hk : 1 <= k <= 8).
  { rewrite Ek. split.
    - apply Qfloor_lower. change (inject_Z 1) with 1%Q. lra.
    - pose proof (Qfloor_le (c * 4 + (1 # 2))) as H.
      assert (H9 : (inject_Z (Qfloor (c * 4 + (1 # 2))) < inject_Z 9)%Q)
        by (change (inject_Z 9) with 9%Q; lra).
      rewrite <- Zlt_Qlt in H9. lia. }
  destruct (toFixedNumber_quarter (inject_Z k * (1 # 4)) k) as (q & Eq & Hq);
    [reflexivity | lia |].
  exists q, c, k. split; [exact Eq|]. split; [exact Hq|]. split; [exact Hk|].
  split; [reflexivity | exact Ek].
Qed.

(** A rate on the grid is left as it is. *)
Lemma normalizePlaybackRate_fixed (q : Q) (k : Z) :
  (q == inject_Z k * (1 # 4))%Q -> 1 <= k <= 8 ->
  exists q', normalizePlaybackRate (Fin q) = Fin q' /\ (q' == q)%Q.
Proof.
  intros Eq Hk.
  destruct (normalizePlaybackRate_spec q) as (q' & c & k' & E & Hq' & _ & Ec & Ek').
  destruct (clamp_Fin (1 # 4) 2 q) as (c' & Ec' & _ & _ & Hin & _); [lra|].
  rewrite Ec in Ec'. injection Ec' as <-.
  assert (Hk1 : (1 <= inject_Z k)%Q)
    by (change 1%Q with (inject_Z 1); rewrite <- Zle_Qle; lia).
  assert (Hk8 : (inject_Z k <= 8)%Q)
    by (change 8%Q with (inject_Z 8); rewrite <- Zle_Qle; lia).
  assert (Hc : (c == q)%Q) by (apply Hin; rewrite Eq; lra).
  assert (Ekk : k' = k).
  { rewrite Ek'. apply Qfloor_unique; rewrite Hc, Eq; lra. }
  exists q'. split; [exact E|]. rewrite Hq', Ekk, Eq. reflexivity.
Qed.

(** X19.  [normalizePlaybackRate] puts every finite rate on the grid of
    quarter steps between 0.25 and 2: a rate below the range gives 0.25, a
    rate above it gives 2, a rate inside it gives a step at most 0.125
    away; and a normalised rate is left unchanged when normalised again. *)
Theorem normalizePlaybackRate_grid (v : Q) :
  exists (q : Q) (k : Z),
    normalizePlaybackRate (Fin v) = Fin q
    /\ (q == inject_Z k * (1 # 4))%Q
    /\ 1 <= k <= 8
    /\ ((v <= 1 # 4)%Q -> k = 1)
    /\ ((2 <= v)%Q -> k = 8)
    /\ ((1 # 4 <= v)%Q -> (v <= 2)%Q -> (Qabs (q - v) <= 1 # 8)%Q)
    /\ same (normalizePlaybackRate (Fin q)) (Fin q).
Proof.
  destruct (normalizePlaybackRate_spec v) as (q & c & k & E & Hq & Hk & Ec & Ek).
  destruct (clamp_Fin (1 # 4) 2 v) as (c' & Ec' & _ & _ & Hin & Hlow & Hhigh);
    [lra|].
  rewrite Ec in Ec'. injection Ec' as <-.
  exists q, k. split; [exact E|]. split; [exact Hq|]. split; [exact Hk|].
  split; [|split; [|split]].
  - intro Hv. rewrite Ek. apply Qfloor_unique; rewrite (Hlow Hv);
      change (inject_Z 1) with 1%Q; lra.
  - intro Hv. rewrite Ek. apply Qfloor_unique; rewrite (Hhigh Hv);
      change (inject_Z 8) with 8%Q; lra.
  - intros H1 H2. pose proof (Hin H1 H2) as Hc.
    pose proof (Qfloor_le (c * 4 + (1 # 2))) as Hlo.
    pose proof (Qlt_floor (c * 4 + (1 # 2))) as Hhi.
    rewrite <- Ek in Hlo, Hhi. rewrite inject_Z_plus in Hhi.
    change (inject_Z 1) with 1%Q in Hhi.
    apply Qabs_Qle_condition. rewrite Hq. rewrite Hc in Hlo, Hhi.
    split; lra.
  - destruct (normalizePlaybackRate_fixed q k Hq Hk) as (q' & E' & Hq').
    rewrite E'. exact Hq'.
Qed.

(** What [setVolume] does with a finite argument. *)
Lemma setVolume_Fin (x : Q) (s : Sound) :
  exists c,
    (0 <= c)%Q /\ (c <= 1)%Q
    /\ ((0 <= x)%Q -> (x <= 1)%Q -> (c == x)%Q)
    /\ ((x <= 0)%Q -> (c == 0)%Q)
    /\ setVolume (Fin x) s
       = if Qltb 0 c
         then ({| volume := Fin c; previousVolume := Fin c;
                  playbackRate := playbackRate s;
                  el_volume := Fin c; el_muted := false;
                  el_playbackRate := el_playbackRate s |}, false)
         else ({| volume := Fin c; previousVolume := previousVolume s;
                  playbackRate := playbackRate s;
                  el_volume := Fin c; el_muted := true;
                  el_playbackRate := el_playbackRate s |}, false).
Proof.
  destruct (clamp_Fin 0 1 x) as (c & Ec & Hlo & Hhi & Hin & Hlow & _); [lra|].
  exists c. split; [exact Hlo|]. split; [exact Hhi|].
  split; [exact Hin|]. split; [exact Hlow|].
  unfold setVolume, of_Z. change (inject_Z 0) with 0%Q.
  change (inject_Z 1) with 1%Q. rewrite Ec.
  assert (L0 : leb (Fin 0) (Fin c) = true).
  { unfold leb, ltb, strict_eq. destruct (Qltb 0 c) eqn:E; [reflexivity|].
    apply Qltb_ge in E. simpl. apply Qeq_bool_iff. lra. }
  assert (L1 : leb (Fin c) (Fin 1) = true).
  { unfold leb, ltb, strict_eq. destruct (Qltb c 1) eqn:E; [reflexivity|].
    apply Qltb_ge in E. simpl. apply Qeq_bool_iff. lra. }
  rewrite L0, L1. reflexivity.
Qed.

(** The ranges that the sound and speed settings stay in. *)
Let in_range (s : Sound) : Prop :=
  exists (v p r : Q) (k : Z),
    volume s = Fin v /\ el_volume s = Fin v /\ (0 <= v)%Q /\ (v <= 1)%Q
    /\ previousVolume s = Fin p /\ (0 < p)%Q /\ (p <= 1)%Q
    /\ (el_muted s = true <-> (v == 0)%Q)
    /\ playbackRate s = Fin r /\ el_playbackRate s = Fin r
    /\ (r == inject_Z k * (1 # 4))%Q /\ 1 <= k <= 8.

Lemma setVolume_in_range (x : Q) (s : Sound) :
  in_range s -> in_range (fst (setVolume (Fin x) s)).
Proof.
  intros (v & p & r & k & _ & _ & _ & _ & Ep & Hp0 & Hp1 & _ & Er & Eer & Hr & Hk).
  destruct (setVolume_Fin x s) as (c & Hc0 & Hc1 & _ & _ & E). rewrite E.
  destruct (Qltb 0 c) eqn:Ec.
  - apply Qltb_lt in Ec. exists c, c, r, k. cbn.
    split; [reflexivity|]. split; [reflexivity|]. split; [exact Hc0|].
    split; [exact Hc1|]. split; [reflexivity|]. split; [exact Ec|].
    split; [exact Hc1|].
    split; [split; [discriminate | intro H; exfalso; lra]|].
    split; [exact Er|]. split; [exact Eer|]. split; [exact Hr | exact Hk].
  - apply Qltb_ge in Ec. exists c, p, r, k. cbn.
    split; [reflexivity|]. split; [reflexivity|]. split; [exact Hc0|].
    split; [exact Hc1|]. split; [exact Ep|]. split; [exact Hp0|].
    split; [exact Hp1|].
    split; [split; [intros _; lra | reflexivity]|].
    split; [exact Er|]. split; [exact Eer|]. split; [exact Hr | exact Hk].
Qed.

Lemma setPlaybackRate_in_range (x : Q) (s : Sound) :
  in_range s -> in_range (fst (setPlaybackRate (Fin x) s)).
Proof.
  intros (v & p & r & k & Ev & Eev & Hv0 & Hv1 & Ep & Hp0 & Hp1 & Hm & _).
  destruct (normalizePlaybackRate_spec x) as (q & c & k' & E & Hq & Hk' & _).
  unfold setPlaybackRate. rewrite E. cbn.
  exists v, p, q, k'.
  split; [exact Ev|]. split; [exact Eev|]. split; [exact Hv0|].
  split; [exact Hv1|]. split; [exact Ep|]. split; [exact Hp0|].
  split; [exact Hp1|]. split; [exact Hm|].
  split; [reflexivity|]. split; [reflexivity|]. split; [exact Hq | exact Hk'].
Qed.

Lemma toggleMute_in_range (s : Sound) : in_range s -> in_range (toggleMute s).
Proof.
  intros (v & p & r & k & Ev & Eev & Hv0 & Hv1 & Ep & Hp0 & Hp1 & Hm & Er & Eer & Hr & Hk).
  unfold toggleMute.
  destruct (el_muted s || strict_eq (el_volume s) (of_Z 0)) eqn:Em.
  - rewrite Ep.
    assert (T : or_else (Fin p) (of_Z 1) = Fin p).
    { unfold or_else, truthy.
      assert (X : Qeq_bool p 0 = false) by (apply Qeq_bool_false; lra).
      rewrite X. reflexivity. }
    rewrite T. apply setVolume_in_range.
    exists v, p, r, k. tauto.
  - apply orb_false_iff in Em. destruct Em as [_ Ez].
    rewrite Eev in Ez. unfold strict_eq, of_Z in Ez.
    apply Qeq_bool_false in Ez. change (inject_Z 0) with 0%Q in Ez.
    apply (setVolume_in_range 0).
    exists v, v, r, k. cbn. rewrite Eev.
    split; [exact Ev|]. split; [reflexivity|]. split; [exact Hv0|].
    split; [exact Hv1|]. split; [reflexivity|].
    split; [apply Qle_lteq in Hv0; destruct Hv0 as [H | H];
            [exact H | exfalso; apply Ez; symmetry; exact H]|].
    split; [exact Hv1|]. split; [exact Hm|].
    split; [exact Er|]. split; [exact Eer|]. split; [exact Hr | exact Hk].
Qed.

Lemma perform_in_range (s : Sound) (call : SoundCall) :
  in_range s -> in_range (perform s call).
Proof.
  intro H. destruct call as [x | loaded d | | x | loaded d | | ]; cbn [perform].
  - apply setVolume_in_range, H.
  - unfold adjustVolume. destruct loaded; cbn [negb]; [|exact H].
    destruct H as (v & H). pose proof H as H'.
    destruct H' as (p & r & k & _ & Eev & _).
    rewrite Eev. cbn [add]. apply setVolume_in_range. exists v. exact H.
  - apply toggleMute_in_range, H.
  - apply setPlaybackRate_in_range, H.
  - unfold adjustPlaybackRate. destruct loaded; cbn [negb]; [|exact H].
    destruct H as (v & p & r & H). pose proof H as H'.
    destruct H' as (k & _ & _ & _ & _ & _ & _ & _ & _ & Er & _).
    rewrite Er. unfold playbackRateStep. cbn [mul add].
    apply setPlaybackRate_in_range. exists v, p, r. exact H.
  - destruct H as (v & p & r & k & Ev & Eev & Hv0 & Hv1 & Ep & Hp0 & Hp1 & Hm & Er & Eer & Hr & Hk).
    exists v, p, r, k. cbn.
    split; [exact Ev|]. split; [exact Eev|]. split; [exact Hv0|].
    split; [exact Hv1|]. split; [exact Ep|]. split; [exact Hp0|].
    split; [exact Hp1|]. split; [exact Hm|].
    split; [exact Eer|]. split; [exact Eer|]. split; [exact Hr | exact Hk].
  - destruct H as (v & p & r & k & Ev & Eev & Hv0 & Hv1 & Ep & Hp0 & Hp1 & Hm & _).
    exists v, p, 1%Q, 4. cbn.
    split; [exact Ev|]. split; [exact Eev|]. split; [exact Hv0|].
    split; [exact Hv1|]. split; [exact Ep|]. split; [exact Hp0|].
    split; [exact Hp1|]. split; [exact Hm|].
    split; [reflexivity|]. split; [reflexivity|]. split; [reflexivity | lia].
Qed.

(** X20.  Whatever sequence of volume, mute and speed commands, rate
    change events and resets happens, with finite arguments, starting from
    the constructor's values: the volume is between 0 and 1 and the element has it; the
    volume remembered for unmuting is above 0 and at most 1; the element is
    muted exactly when its volume is 0; and the speed is a quarter step
    between 0.25 and 2, which the element has. *)
Theorem sound_and_speed_stay_in_range (calls : list SoundCall) :
  exists (v p r : Q) (k : Z),
    volume (fold_left perform calls initial) = Fin v
    /\ el_volume (fold_left perform calls initial) = Fin v
    /\ (0 <= v)%Q /\ (v <= 1)%Q
    /\ previousVolume (fold_left perform calls initial) = Fin p
    /\ (0 < p)%Q /\ (p <= 1)%Q
    /\ (el_muted (fold_left perform calls initial) = true <-> (v == 0)%Q)
    /\ playbackRate (fold_left perform calls initial) = Fin r
    /\ el_playbackRate (fold_left perform calls initial) = Fin r
    /\ (r == inject_Z k * (1 # 4))%Q /\ 1 <= k <= 8.
Proof.
  change (in_range (fold_left perform calls initial)).
  induction calls as [| call calls IH] using rev_ind.
  - exists 1%Q, 1%Q, 1%Q, 4. cbn.
    split; [reflexivity|]. split; [reflexivity|]. split; [lra|]. split; [lra|].
    split; [reflexivity|]. split; [lra|]. split; [lra|].
    split; [split; [discriminate | intro H; exfalso; lra]|].
    split; [reflexivity|]. split; [reflexivity|]. split; [reflexivity | lia].
  - rewrite fold_left_app. cbn [fold_left]. apply perform_in_range, IH.
Qed.

(** X21.  Muting and unmuting restores the volume.  On a player that is
    audible (not muted, volume above 0 and at most 1), [toggleMute] mutes
    the element, sets its volume to 0 and remembers the volume; a second
    [toggleMute] unmutes it at the volume it had. *)
Theorem toggleMute_twice_restores (s : Sound) (v : Q) :
  el_volume s = Fin v ->
  (0 < v)%Q -> (v <= 1)%Q ->
  el_muted s = false ->
  el_muted (toggleMute s) = true
  /\ el_volume (toggleMute s) = of_Z 0
  /\ previousVolume (toggleMute s) = Fin v
  /\ el_muted (toggleMute (toggleMute s)) = false
  /\ same (el_volume (toggleMute (toggleMute s))) (Fin v)
  /\ same (volume (toggleMute (toggleMute s))) (Fin v).
Proof.
  intros Ev Hv0 Hv1 Hm.
  assert (E1 : toggleMute s
               = {| volume := of_Z 0; previousVolume := Fin v;
                    playbackRate := playbackRate s;
                    el_volume := of_Z 0; el_muted := true;
                    el_playbackRate := el_playbackRate s |}).
  { unfold toggleMute. rewrite Hm, Ev.
    assert (X : strict_eq (Fin v) (of_Z 0) = false).
    { unfold strict_eq, of_Z. apply Qeq_bool_false.
      change (inject_Z 0) with 0%Q. lra. }
    rewrite X. reflexivity. }
  rewrite E1. split; [reflexivity|]. split; [reflexivity|]. split; [reflexivity|].
  unfold toggleMute. cbn [el_muted orb previousVolume].
  assert (T : or_else (Fin v) (of_Z 1) = Fin v).
  { unfold or_else, truthy.
    assert (X : Qeq_bool v 0 = false) by (apply Qeq_bool_false; lra).
    rewrite X. reflexivity. }
  rewrite T.
  match goal with |- context [setVolume (Fin v) ?t] =>
    destruct (setVolume_Fin v t) as (c & _ & _ & Hin & _ & E) end.
  rewrite E.
  assert (Hc : (c == v)%Q) by (apply Hin; lra).
  assert (L : Qltb 0 c = true) by (apply Qltb_lt; lra).
  rewrite L. cbn. split; [reflexivity|]. split; exact Hc.
Qed.

(** Unmuting the sample player set to 40 percent. *)
Lemma toggleMute_twice_restores_witness :
  el_muted (toggleMute (fst (setVolume (Fin (2 # 5)) initial))) = true.
Proof.
  refine (proj1 (toggleMute_twice_restores
                   (fst (setVolume (Fin (2 # 5)) initial)) (2 # 5) _ _ _ _));
    try reflexivity; lra.
Defined.

(** X22.  Stepping the speed.  From a speed of [k] quarter steps
    (1 <= k <= 8) on a loaded video, [adjustPlaybackRate(d)] with a whole
    number [d] moves to [k + d] quarter steps, stopping at 1 (0.25) and at
    8 (2.0); the element gets the same speed.  Without a video the call
    changes nothing. *)
Theorem adjustPlaybackRate_steps (s : Sound) (r : Q) (k d : Z) :
  playbackRate s = Fin r ->
  (r == inject_Z k * (1 # 4))%Q ->
  1 <= k <= 8 ->
  same (playbackRate (adjustPlaybackRate true (of_Z d) s))
       (Fin (inject_Z (Z.max 1 (Z.min 8 (k + d))) * (1 # 4)))
  /\ el_playbackRate (adjustPlaybackRate true (of_Z d) s)
     = playbackRate (adjustPlaybackRate true (of_Z d) s)
  /\ adjustPlaybackRate false (of_Z d) s = s.
Proof.
  intros Er Hr Hk.
  split; [|split; [|reflexivity]].
  - unfold adjustPlaybackRate, playbackRateStep, of_Z. cbn [negb]. rewrite Er.
    cbn [mul add].
    set (x := (r + inject_Z d * (1 # 4))%Q).
    destruct (normalizePlaybackRate_spec x) as (q & c & k' & E & Hq & Hk' & Ec & Ek).
    destruct (clamp_Fin (1 # 4) 2 x) as (c' & Ec' & _ & _ & Hin & Hlow & Hhigh);
      [lra|].
    rewrite Ec in Ec'. injection Ec' as <-.
    unfold setPlaybackRate. rewrite E. cbn.
    rewrite Hq.
    assert (Hx : (x == inject_Z (k + d) * (1 # 4))%Q).
    { subst x. rewrite Hr, inject_Z_plus. ring. }
    assert (Ekk : k' = Z.max 1 (Z.min 8 (k + d))).
    { rewrite Ek.
      destruct (Z_le_gt_dec (k + d) 1) as [H1 | H1].
      - assert (Hq1 : (inject_Z (k + d) <= inject_Z 1)%Q)
          by (rewrite <- Zle_Qle; exact H1).
        change (inject_Z 1) with 1%Q in Hq1.
        assert (Hc : (c == 1 # 4)%Q) by (apply Hlow; rewrite Hx; lra).
        replace (Z.max 1 (Z.min 8 (k + d))) with 1 by lia.
        apply Qfloor_unique; rewrite Hc; change (inject_Z 1) with 1%Q; lra.
      - destruct (Z_le_gt_dec 8 (k + d)) as [H8 | H8].
        + assert (Hq8 : (inject_Z 8 <= inject_Z (k + d))%Q)
            by (rewrite <- Zle_Qle; exact H8).
          change (inject_Z 8) with 8%Q in Hq8.
          assert (Hc : (c == 2)%Q) by (apply Hhigh; rewrite Hx; lra).
          replace (Z.max 1 (Z.min 8 (k + d))) with 8 by lia.
          apply Qfloor_unique; rewrite Hc; change (inject_Z 8) with 8%Q; lra.
        + assert (Hq1 : (inject_Z 1 <= inject_Z (k + d))%Q)
            by (rewrite <- Zle_Qle; lia).
          assert (Hq8 : (inject_Z (k + d) <= inject_Z 8)%Q)
            by (rewrite <- Zle_Qle; lia).
          change (inject_Z 1) with 1%Q in Hq1.
          change (inject_Z 8) with 8%Q in Hq8.
          assert (Hc : (c == x)%Q) by (apply Hin; rewrite Hx; lra).
          replace (Z.max 1 (Z.min 8 (k + d))) with (k + d) by lia.
          apply Qfloor_unique; rewrite Hc, Hx; lra. }
    rewrite Ekk. reflexivity.
  - unfold adjustPlaybackRate, playbackRateStep, of_Z. cbn [negb]. rewrite Er.
    cbn [mul add].
    destruct (normalizePlaybackRate_spec (r + inject_Z d * (1 # 4)))
      as (q & c & k' & E & _).
    unfold setPlaybackRate. rewrite E. reflexivity.
Qed.

(** One step up from the normal speed. *)
Lemma adjustPlaybackRate_steps_witness :
  same (playbackRate (adjustPlaybackRate true (of_Z 1) initial))
       (Fin (inject_Z 5 * (1 # 4))).
Proof.
  refine (proj1 (adjustPlaybackRate_steps initial 1 4 1 _ _ _)).
  - reflexivity.
  - reflexivity.
  - lia.
Defined.

End SoundAndSpeed.

(* ===================================================================== *)
(** * The window size *)
(* ===================================================================== *)

Section WindowSize.
Import PlayerControls.

Lemma max_Fin_cases (a b : Q) :
  exists c, max (Fin a) (Fin b) = Fin c
            /\ (a <= c)%Q /\ (b <= c)%Q /\ (c = a \/ c = b).
Proof.
  unfold max, ltb. destruct (Qltb a b) eqn:E.
  - apply Qltb_lt in E. exists b.
    split; [reflexivity|]. split; [lra|]. split; [lra|]. right; reflexivity.
  - apply Qltb_ge in E. exists a.
    split; [reflexivity|]. split; [lra|]. split; [lra|]. left; reflexivity.
Qed.

Lemma min_Fin_cases (a b : Q) :
  exists c, min (Fin a) (Fin b) = Fin c
            /\ (c <= a)%Q /\ (c <= b)%Q /\ (c = a \/ c = b).
Proof.
  unfold min, ltb. destruct (Qltb b a) eqn:E.
  - apply Qltb_lt in E. exists b.
    split; [reflexivity|]. split; [lra|]. split; [lra|]. right; reflexivity.
  - apply Qltb_ge in E. exists a.
    split; [reflexivity|]. split; [lra|]. split; [lra|]. left; reflexivity.
Qed.

Lemma div_Fin (a b : Q) : (0 < b)%Q -> div (Fin a) (Fin b) = Fin (a / b).
Proof.
  intro H. unfold div.
  assert (X : Qeq_bool b 0 = false) by (apply Qeq_bool_false; lra).
  rewrite X. reflexivity.
Qed.

Lemma Qdiv_le_mult (a b c : Q) : (0 < c)%Q -> (a / c <= b)%Q -> (a <= b * c)%Q.
Proof.
  intros Hc H.
  assert (E : (a == a / c * c)%Q) by (field; lra).
  rewrite E. apply Qmult_le_compat_r; [exact H | lra].
Qed.

Lemma Qle_div_mult (a b c : Q) : (0 < c)%Q -> (b <= a / c)%Q -> (b * c <= a)%Q.
Proof.
  intros Hc H.
  assert (E : (a == a / c * c)%Q) by (field; lra).
  rewrite E. apply Qmult_le_compat_r; [exact H | lra].
Qed.

Lemma Qmult_le_div (a b c : Q) : (0 < c)%Q -> (b * c <= a)%Q -> (b <= a / c)%Q.
Proof.
  intros Hc H. apply Qle_shift_div_l; assumption.
Qed.

Lemma inject_Z_pos (z : Z) : 1 <= z -> (1 <= inject_Z z)%Q.
Proof.
  intro H. change 1%Q with (inject_Z 1). rewrite <- Zle_Qle. exact H.
Qed.

Lemma round_of_Z_mul_one (z : Z) (u : Q) :
  (u == 1)%Q -> Qfloor (inject_Z z * u + (1 # 2)) = z.
Proof.
  intro E. apply Qfloor_unique; rewrite E; lra.
Qed.

(** The room left for the content: the 85% area less the title bar. *)
Lemma content_room (sh : Z) :
  exists m,
    max (of_Z 1) (sub (round (mul (of_Z sh) (Fin (85 # 100)))) titlebarHeight)
    = Fin m
    /\ (m == inject_Z (Z.max 1 (Qfloor (inject_Z sh * (85 # 100) + (1 # 2)) - 32)))%Q.
Proof.
  change (round (mul (of_Z sh) (Fin (85 # 100))))
    with (of_Z (Qfloor (inject_Z sh * (85 # 100) + (1 # 2)))).
  set (M := Qfloor (inject_Z sh * (85 # 100) + (1 # 2))).
  change (sub (of_Z M) titlebarHeight) with (Fin (inject_Z M + - inject_Z 32)).
  unfold of_Z.
  destruct (max_Fin_cases (inject_Z 1) (inject_Z M + - inject_Z 32))
    as (m & E & H1 & H2 & Hm).
  exists m. split; [exact E|].
  assert (X : (inject_Z M + - inject_Z 32 == inject_Z (M - 32))%Q).
  { unfold Z.sub. rewrite inject_Z_plus, inject_Z_opp. reflexivity. }
  rewrite X in H2.
  destruct (Z.max_spec 1 (M - 32)) as [[Hlt ->] | [Hle ->]].
  - destruct Hm as [-> | ->]; [|exact X].
    apply Qle_antisym; [|exact H2].
    rewrite <- Zle_Qle. lia.
  - destruct Hm as [-> | ->]; [reflexivity|].
    rewrite X. apply Qle_antisym; [rewrite <- Zle_Qle; lia|].
    rewrite X in H1. exact H1.
Qed.

(** [scaledDown] on whole sizes, in terms of the factor it applies. *)
Lemma scaledDown_factor (w h sw sh : Z) :
  1 <= w -> 1 <= h ->
  exists ds : Q,
    scaledDown (of_Z w) (of_Z h) (of_Z sw) (of_Z sh)
    = (of_Z (Qfloor (inject_Z w * ds + (1 # 2))),
       of_Z (Qfloor (inject_Z h * ds + (1 # 2))))
    /\ (ds <= 1)%Q
    /\ (inject_Z w * ds
        <= inject_Z (Qfloor (inject_Z sw * (85 # 100) + (1 # 2))))%Q
    /\ (inject_Z h * ds
        <= inject_Z (Z.max 1 (Qfloor (inject_Z sh * (85 # 100) + (1 # 2)) - 32)))%Q
    /\ (w <= Qfloor (inject_Z sw * (85 # 100) + (1 # 2)) ->
        h <= Z.max 1 (Qfloor (inject_Z sh * (85 # 100) + (1 # 2)) - 32) ->
        (ds == 1)%Q).
Proof.
  intros Hw Hh.
  pose proof (inject_Z_pos w Hw) as Hwq. pose proof (inject_Z_pos h Hh) as Hhq.
  unfold scaledDown, min3.
  destruct (content_room sh) as (m & Em & Hm). rewrite Em.
  change (round (mul (of_Z sw) (Fin (85 # 100))))
    with (of_Z (Qfloor (inject_Z sw * (85 # 100) + (1 # 2)))).
  set (MW := Qfloor (inject_Z sw * (85 # 100) + (1 # 2))) in *.
  set (MH := Z.max 1 (Qfloor (inject_Z sh * (85 # 100) + (1 # 2)) - 32)) in *.
  unfold of_Z.
  rewrite (div_Fin (inject_Z MW) (inject_Z w)) by lra.
  rewrite (div_Fin m (inject_Z h)) by lra.
  destruct (min_Fin_cases (inject_Z 1) (inject_Z MW / inject_Z w))
    as (d1 & E1 & H11 & H12 & Hd1).
  rewrite E1.
  destruct (min_Fin_cases d1 (m / inject_Z h)) as (ds & E2 & H21 & H22 & Hds).
  rewrite E2. cbn [mul round]. unfold of_Z.
  exists ds. split; [reflexivity|].
  change (inject_Z 1) with 1%Q in *.
  split; [lra|].
  assert (B1 : (inject_Z w * ds <= inject_Z MW)%Q).
  { rewrite Qmult_comm. apply Qle_div_mult; [lra|]. lra. }
  assert (B2 : (inject_Z h * ds <= inject_Z MH)%Q).
  { rewrite Qmult_comm. rewrite <- Hm. apply Qle_div_mult; [lra|]. lra. }
  split; [exact B1|]. split; [exact B2|].
  intros Fw Fh.
  rewrite Zle_Qle in Fw. rewrite Zle_Qle in Fh. rewrite <- Hm in Fh.
  assert (G1 : (1 <= inject_Z MW / inject_Z w)%Q)
    by (apply Qmult_le_div; lra).
  assert (G2 : (1 <= m / inject_Z h)%Q)
    by (apply Qmult_le_div; lra).
  apply Qle_antisym; [lra|].
  destruct Hds as [-> | ->]; [|exact G2].
  destruct Hd1 as [-> | ->]; [lra | exact G1].
Qed.

(** [scaledUp] on whole sizes, in terms of the factor it applies. *)
Lemma scaledUp_factor (w h : Z) :
  1 <= w -> 1 <= h ->
  exists u : Q,
    scaledUp (of_Z w, of_Z h)
    = (of_Z (Qfloor (inject_Z w * u + (1 # 2))),
       of_Z (Qfloor (inject_Z h * u + (1 # 2))))
    /\ (1 <= u)%Q
    /\ (480 <= inject_Z w * u)%Q
    /\ (328 <= inject_Z h * u)%Q
    /\ (480 <= w -> 328 <= h -> (u == 1)%Q).
Proof.
  intros Hw Hh.
  pose proof (inject_Z_pos w Hw) as Hwq. pose proof (inject_Z_pos h Hh) as Hhq.
  unfold scaledUp, max3, minWindowWidth, minWindowHeight.
  change (max (of_Z 1) (sub (of_Z 360) titlebarHeight))
    with (Fin (inject_Z 360 + - inject_Z 32)).
  unfold of_Z.
  rewrite (div_Fin (inject_Z 480) (inject_Z w)) by lra.
  rewrite (div_Fin (inject_Z 360 + - inject_Z 32) (inject_Z h)) by lra.
  destruct (max_Fin_cases (inject_Z 1) (inject_Z 480 / inject_Z w))
    as (u1 & E1 & H11 & H12 & Hu1).
  rewrite E1.
  destruct (max_Fin_cases u1 ((inject_Z 360 + - inject_Z 32) / inject_Z h))
    as (u & E2 & H21 & H22 & Hu).
  rewrite E2. cbn [mul round]. unfold of_Z.
  exists u. split; [reflexivity|].
  change (inject_Z 1) with 1%Q in *.
  change (inject_Z 480) with 480%Q in *.
  change (inject_Z 360 + - inject_Z 32)%Q with (360 + - (32))%Q in *.
  split; [lra|].
  split; [rewrite Qmult_comm; apply Qdiv_le_mult; lra|].
  split.
  { assert (X : (360 + - (32) <= u * inject_Z h)%Q)
      by (apply Qdiv_le_mult; lra).
    rewrite Qmult_comm. lra. }
  intros Bw Bh.
  assert (Bwq : (480 <= inject_Z w)%Q)
    by (change 480%Q with (inject_Z 480); rewrite <- Zle_Qle; exact Bw).
  assert (Bhq : (328 <= inject_Z h)%Q)
    by (change 328%Q with (inject_Z 328); rewrite <- Zle_Qle; exact Bh).
  assert (G1 : (480 / inject_Z w <= 1)%Q)
    by (apply Qle_shift_div_r; lra).
  assert (G2 : ((360 + - (32)) / inject_Z h <= 1)%Q)
    by (apply Qle_shift_div_r; lra).
  apply Qle_antisym; [|lra].
  destruct Hu as [-> | ->]; [|exact G2].
  destruct Hu1 as [-> | ->]; [lra | exact G1].
Qed.

Lemma round_ge (x : Q) (k : Z) : (inject_Z k <= x)%Q -> k <= Qfloor (x + (1 # 2)).
Proof.
  intro H. apply Qfloor_lower. lra.
Qed.

Lemma round_le (x : Q) (k : Z) : (x <= inject_Z k)%Q -> Qfloor (x + (1 # 2)) <= k.
Proof.
  intro H. pose proof (Qfloor_le (x + (1 # 2))) as F.
  assert (L : (inject_Z (Qfloor (x + (1 # 2))) < inject_Z (k + 1))%Q).
  { rewrite inject_Z_plus. change (inject_Z 1) with 1%Q. lra. }
  rewrite <- Zlt_Qlt in L. lia.
Qed.

(** X23.  A video larger than the screen is scaled down to fit.  For a
    video of [w] by [h] pixels, the content size after the first scaling
    step is at most the video's size, at most 85% of the screen's width
    (rounded) in width, and at most 85% of the screen's height less the 32
    pixel title bar (but at least 1) in height; both sides are the video's
    scaled by one factor and rounded; and a video that already fits keeps
    its size. *)
Theorem scaledDown_fits_the_screen (w h sw sh : Z) :
  1 <= w -> 1 <= h ->
  exists (cw ch : Z) (ds : Q),
    scaledDown (of_Z w) (of_Z h) (of_Z sw) (of_Z sh) = (of_Z cw, of_Z ch)
    /\ cw = Qfloor (inject_Z w * ds + (1 # 2))
    /\ ch = Qfloor (inject_Z h * ds + (1 # 2))
    /\ cw <= w /\ ch <= h
    /\ cw <= Qfloor (inject_Z sw * (85 # 100) + (1 # 2))
    /\ ch <= Z.max 1 (Qfloor (inject_Z sh * (85 # 100) + (1 # 2)) - 32)
    /\ (w <= Qfloor (inject_Z sw * (85 # 100) + (1 # 2)) ->
        h <= Z.max 1 (Qfloor (inject_Z sh * (85 # 100) + (1 # 2)) - 32) ->
        cw = w /\ ch = h).
Proof.
  intros Hw Hh.
  pose proof (inject_Z_pos w Hw) as Hwq. pose proof (inject_Z_pos h Hh) as Hhq.
  destruct (scaledDown_factor w h sw sh Hw Hh) as (ds & E & Hds & B1 & B2 & Hfit).
  exists (Qfloor (inject_Z w * ds + (1 # 2))),
         (Qfloor (inject_Z h * ds + (1 # 2))), ds.
  split; [exact E|]. split; [reflexivity|]. split; [reflexivity|].
  split; [apply round_le; nra|]. split; [apply round_le; nra|].
  split; [apply round_le, B1|]. split; [apply round_le, B2|].
  intros Fw Fh. pose proof (Hfit Fw Fh) as E1.
  split; apply round_of_Z_mul_one, E1.
Qed.

(** A 4K video on a full HD screen. *)
Lemma scaledDown_fits_the_screen_witness :
  exists (cw ch : Z) (ds : Q),
    scaledDown (of_Z 3840) (of_Z 2160) (of_Z 1920) (of_Z 1080)
    = (of_Z cw, of_Z ch)
    /\ cw = Qfloor (inject_Z 3840 * ds + (1 # 2))
    /\ ch = Qfloor (inject_Z 2160 * ds + (1 # 2))
    /\ cw <= 3840 /\ ch <= 2160.
Proof.
  destruct (scaledDown_fits_the_screen 3840 2160 1920 1080) as
    (cw & ch & ds & E & Ew & Eh & Hw & Hh & _); [lia | lia |].
  exists cw, ch, ds.
  split; [exact E|]. split; [exact Ew|]. split; [exact Eh|].
  split; [exact Hw | exact Hh].
Defined.

(** X24.  The window for a video that fits the screen.  For a loaded
    video of [w] by [h] pixels that fits into 85% of the screen, the size
    handed to [setWindowSize] is a whole number of pixels each way, at
    least 480 by 360 and at least the video's size plus the 32 pixel title
    bar; its content is the video scaled by one factor of at least 1, each
    side rounded; and a video of at least 480 by 328 pixels gets exactly
    its own size plus the title bar.  The element's size is used, whatever
    the descriptor says. *)
Theorem resizeWindowToVideo_of_fitting_video
        (w h sw sh : Z) (width height : num) :
  1 <= w -> 1 <= h ->
  w <= Qfloor (inject_Z sw * (85 # 100) + (1 # 2)) ->
  h <= Z.max 1 (Qfloor (inject_Z sh * (85 # 100) + (1 # 2)) - 32) ->
  exists (W H : Z) (u : Q),
    resizeWindowToVideo true (of_Z w) (of_Z h) width height (of_Z sw) (of_Z sh)
    = Some (of_Z W, of_Z H)
    /\ 480 <= W /\ 360 <= H /\ w <= W /\ h + 32 <= H
    /\ (1 <= u)%Q
    /\ W = Qfloor (inject_Z w * u + (1 # 2))
    /\ H = Qfloor (inject_Z h * u + (1 # 2)) + 32
    /\ (480 <= w -> 328 <= h -> W = w /\ H = h + 32).
Proof.
  intros Hw Hh Fw Fh.
  pose proof (inject_Z_pos w Hw) as Hwq. pose proof (inject_Z_pos h Hh) as Hhq.
  destruct (scaledDown_factor w h sw sh Hw Hh) as (ds & Ed & _ & _ & _ & Hfit).
  pose proof (Hfit Fw Fh) as Hds.
  rewrite (round_of_Z_mul_one w ds Hds), (round_of_Z_mul_one h ds Hds) in Ed.
  destruct (scaledUp_factor w h Hw Hh) as (u & Eu & Hu & Bw & Bh & Hnat).
  set (W := Qfloor (inject_Z w * u + (1 # 2))) in *.
  set (H0 := Qfloor (inject_Z h * u + (1 # 2))) in *.
  exists W, (H0 + 32), u.
  assert (T1 : or_else (of_Z w) width = of_Z w).
  { unfold or_else, truthy, of_Z.
    assert (X : Qeq_bool (inject_Z w) 0 = false) by (apply Qeq_bool_false; lra).
    rewrite X. reflexivity. }
  assert (T2 : or_else (of_Z h) height = of_Z h).
  { unfold or_else, truthy, of_Z.
    assert (X : Qeq_bool (inject_Z h) 0 = false) by (apply Qeq_bool_false; lra).
    rewrite X. reflexivity. }
  split.
  { unfold resizeWindowToVideo. cbn [negb]. rewrite T1, T2, Ed, Eu.
    unfold titlebarHeight, of_Z. cbn [add round]. unfold of_Z.
    assert (X : Qfloor (inject_Z H0 + inject_Z 32 + (1 # 2)) = H0 + 32).
    { apply Qfloor_unique; rewrite inject_Z_plus; lra. }
    rewrite X. reflexivity. }
  assert (W480 : 480 <= W)
    by (apply round_ge; change (inject_Z 480) with 480%Q; exact Bw).
  assert (H328 : 328 <= H0)
    by (apply round_ge; change (inject_Z 328) with 328%Q; exact Bh).
  assert (Ww : w <= W) by (apply round_ge; nra).
  assert (Hh0 : h <= H0) by (apply round_ge; nra).
  split; [exact W480|]. split; [lia|]. split; [exact Ww|]. split; [lia|].
  split; [exact Hu|]. split; [reflexivity|]. split; [reflexivity|].
  intros Bw' Bh'. pose proof (Hnat Bw' Bh') as E1.
  subst W H0. rewrite !(round_of_Z_mul_one _ u E1). split; reflexivity.
Qed.

(** A 720p video on a full HD screen. *)
Lemma resizeWindowToVideo_of_fitting_video_witness :
  exists (W H : Z) (u : Q),
    resizeWindowToVideo true (of_Z 1280) (of_Z 720) NaN NaN
                        (of_Z 1920) (of_Z 1080)
    = Some (of_Z W, of_Z H)
    /\ 480 <= W /\ 360 <= H /\ 1280 <= W /\ 720 + 32 <= H.
Proof.
  destruct (resizeWindowToVideo_of_fitting_video 1280 720 1920 1080 NaN NaN)
    as (W & H & u & E & H1 & H2 & H3 & H4 & _);
    [lia | lia | vm_compute; discriminate | vm_compute; discriminate |].
  exists W, H, u.
  split; [exact E|]. split; [exact H1|]. split; [exact H2|].
  split; [exact H3 | exact H4].
Defined.

End WindowSize.
